(** * Bucket routes (src/routes/v1/bucket.route.js)

    A shallow embedding of the Express router of the bucket service:
    the project permission check, the listing, metadata, bucket-list and
    upload handlers, the handlers whose bodies only read their
    parameters, and the multer storage configuration, together with the
    parts of Node and Express they rely on (path.join, path.extname, the
    response object, promises returned by async functions).

    An async function runs up to its first [await] when it is called and
    gives its caller a promise; what follows the [await] runs when the
    awaited read completes.  The order in which pending reads complete is
    not fixed by the program, so a request is run against a schedule.  A
    promise that is rejected and never awaited is recorded and has no
    further effect.

    A read of a document completes, with the data of the document or
    with nothing when there is no such document; the parameters of a
    request are what Express makes of the query string: strings, arrays
    and objects.  The job manager the router requires is not among the
    sources; it is modelled from the spec in [Jobs]. *)

From Stdlib Require Import String Ascii List NArith ZArith Lia DecimalString
  DecimalN.
From stdpp Require Import base option list strings gmap.
Import ListNotations.
Open Scope string_scope.
Open Scope list_scope.

(** ** Strings cut at the path separator *)

Module Path.

Definition sep : ascii := "/"%char.

Definition is_sep (c : ascii) : bool := Ascii.eqb c sep.

(** [s.split("/")]: never empty, the pieces hold no separator. *)
Fixpoint split (s : string) : list string :=
  match s with
  | EmptyString => [EmptyString]
  | String c rest =>
      if is_sep c then EmptyString :: split rest
      else match split rest with
           | [] => [String c EmptyString]
           | piece :: pieces => String c piece :: pieces
           end
  end.

(** [pieces.join("/")]. *)
Fixpoint unsplit (pieces : list string) : string :=
  match pieces with
  | [] => EmptyString
  | [piece] => piece
  | piece :: more => piece +:+ String sep (unsplit more)
  end.

Definition isAbsolute (p : string) : bool :=
  match p with
  | String c _ => is_sep c
  | EmptyString => false
  end.

Fixpoint ends_with_sep (p : string) : bool :=
  match p with
  | EmptyString => false
  | String c EmptyString => is_sep c
  | String _ rest => ends_with_sep rest
  end.

(** One segment of [normalizeString]; the segments kept so far are held
    innermost first.  Empty and [.] segments are dropped.  A [..] segment
    removes the last kept segment unless that one is itself [..]; when
    nothing can be removed it is kept only if the path is relative
    ([allowAboveRoot]). *)
Definition normalize_step (allowAboveRoot : bool)
    (kept : list string) (seg : string) : list string :=
  if (seg =? "") || (seg =? ".") then kept
  else if seg =? ".." then
    match kept with
    | last :: before =>
        if last =? ".." then (if allowAboveRoot then ".." :: kept else kept)
        else before
    | [] => if allowAboveRoot then [".."] else []
    end
  else seg :: kept.

Definition normalizeString (allowAboveRoot : bool) (segs : list string)
  : list string :=
  rev (fold_left (normalize_step allowAboveRoot) segs []).

(** [path.posix.normalize]. *)
Definition normalize (p : string) : string :=
  if p =? "" then "."
  else
    let absolute := isAbsolute p in
    let trailingSeparator := ends_with_sep p in
    let segs := normalizeString (negb absolute) (split p) in
    match segs with
    | [] => if absolute then "/" else if trailingSeparator then "./" else "."
    | _ =>
        let body := unsplit segs in
        let body := if trailingSeparator then body +:+ "/" else body in
        if absolute then "/" +:+ body else body
    end.

(** [path.posix.join]: the non-empty arguments are glued with [/] and the
    result is normalized; with nothing to glue the result is [.]. *)
Definition join (args : list string) : string :=
  match filter (λ a, negb (a =? "")) args with
  | [] => "."
  | parts => normalize (unsplit parts)
  end.

(** State of the backwards scan of [path.posix.extname]. *)
Record ext_scan := {
  startDot : Z;
  startPart : Z;
  end_ : Z;
  matchedSlash : bool;
  preDotState : Z;
}.

Definition ext_scan0 : ext_scan :=
  {| startDot := -1; startPart := 0; end_ := -1;
     matchedSlash := true; preDotState := 0 |}.

(** The loop body at index [i] with character [c]; [inl] is a [break]. *)
Definition ext_step (i : Z) (c : ascii) (st : ext_scan)
  : ext_scan + ext_scan :=
  if is_sep c then
    if negb (matchedSlash st) then
      inl {| startDot := startDot st; startPart := i + 1; end_ := end_ st;
             matchedSlash := matchedSlash st; preDotState := preDotState st |}
    else inr st
  else
    let st :=
      if (end_ st =? -1)%Z then
        {| startDot := startDot st; startPart := startPart st; end_ := i + 1;
           matchedSlash := false; preDotState := preDotState st |}
      else st in
    if Ascii.eqb c "."%char then
      if (startDot st =? -1)%Z then
        inr {| startDot := i; startPart := startPart st; end_ := end_ st;
               matchedSlash := matchedSlash st; preDotState := preDotState st |}
      else if negb (preDotState st =? 1)%Z then
        inr {| startDot := startDot st; startPart := startPart st;
               end_ := end_ st; matchedSlash := matchedSlash st;
               preDotState := 1 |}
      else inr st
    else if negb (startDot st =? -1)%Z then
      inr {| startDot := startDot st; startPart := startPart st;
             end_ := end_ st; matchedSlash := matchedSlash st;
             preDotState := -1 |}
    else inr st.

(** [for (i = path.length - 1; i >= 0; --i)] over the characters taken
    last first. *)
Fixpoint ext_loop (backwards : list ascii) (i : Z) (st : ext_scan)
  : ext_scan :=
  match backwards with
  | [] => st
  | c :: more =>
      match ext_step i c st with
      | inl stopped => stopped
      | inr st' => ext_loop more (i - 1) st'
      end
  end.

Definition extname (p : string) : string :=
  let st := ext_loop (rev (list_ascii_of_string p))
                     (Z.of_nat (String.length p) - 1) ext_scan0 in
  if (startDot st =? -1)%Z || (end_ st =? -1)%Z || (preDotState st =? 0)%Z
     || ((preDotState st =? 1)%Z && (startDot st =? end_ st - 1)%Z
         && (startDot st =? startPart st + 1)%Z)
  then ""
  else substring (Z.to_nat (startDot st))
                 (Z.to_nat (end_ st - startDot st)) p.

(** The names a path goes through, from the left. *)
Definition components (p : string) : list string :=
  filter (λ s, negb ((s =? "") || (s =? "."))) (split p).



Fixpoint no_sep (s : string) : bool :=
  match s with
  | EmptyString => true
  | String c rest => negb (is_sep c) && no_sep rest
  end.

(** A name without separator and without dot, as a file extension is. *)
Definition plain_char (c : ascii) : bool :=
  negb (is_sep c) && negb (Ascii.eqb c ".").

Definition plain (s : string) : bool :=
  forallb plain_char (list_ascii_of_string s).

(** The scan state with another [preDotState]. *)
Definition with_preDot (st : ext_scan) (v : Z) : ext_scan :=
  {| startDot := startDot st; startPart := startPart st; end_ := end_ st;
     matchedSlash := matchedSlash st; preDotState := v |}.

(** A segment that normalization keeps: a piece that is neither empty
    nor [.]. *)
Definition proper (s : string) : Prop :=
  no_sep s = true ∧ s ≠ "" ∧ s ≠ ".".

End Path.

(** ** Values, errors and responses *)

(** The names of misc/StatusCode that the routes use. *)
Inductive status := OK | Forbidden | NotFound | InternalServerError.

Inductive exn :=
| TypeError (what : string)
| ReferenceError (ident : string)
| InvalidArgument (what : string)
| HeadersSent
| ENOENT (syscall path : string)
| ENOTDIR (syscall path : string).

(** What a JavaScript expression of the routes can evaluate to, as far
    as the routes look at it. *)
Inductive jsval :=
| JUndefined
| JBool (b : bool)
| JPromise (task : nat)
| JObject.

(** [ToBoolean]: every object, a promise included, is truthy. *)
Definition truthy (v : jsval) : bool :=
  match v with
  | JUndefined => false
  | JBool b => b
  | JPromise _ => true
  | JObject => true
  end.

(** What Express hands a handler for a parameter of the query string: a
    string, or for a repeated or bracketed parameter an array or an
    object.  A string stands for the value it is where a value is
    expected. *)
#[warnings="-register-all"]
Inductive qvalue :=
| QString (s : string)
| QArray (items : list qvalue)
| QObject (fields : list (string * qvalue)).

Coercion QString : string >-> qvalue.

(** [ToString]: an array gives its items separated by commas. *)
Fixpoint to_string (v : qvalue) : string :=
  match v with
  | QString s => s
  | QArray items => String.concat "," (map to_string items)
  | QObject _ => "[object Object]"
  end.

Inductive kind := IsFile | IsDirectory.

(** What is handed to [res.send]: [Files] stands for [req.files] and
    [ErrorFields error] for [{ ...error }]. *)
Inductive payload :=
| Message (message : string)
| Buckets (buckets : jsval)
| Listing (files folders : list string)
| Stat (stat : kind)
| Files
| ErrorFields (error : exn).

Definition response : Type := status * payload.

(** ** The stores the routes read *)

Record project := {
  ownerId : string;
  collaborators : list string;
  buckets : list string;
}.

Record bucket := { isPublic : bool }.

(** Two separators in a row. *)
Fixpoint has_double_sep (s : string) : bool :=
  match s with
  | String a (String b _ as rest) =>
      (Path.is_sep a && Path.is_sep b) || has_double_sep rest
  | _ => false
  end.

(** [collection(...).doc(documentPath)] of the Firestore client, as far as
    the document it names goes.  The path has to be a non-empty string
    without [//]; it is cut at the separators, the empty pieces of a
    leading and a trailing separator are dropped, and behind the
    collection an odd number of pieces has to remain, or the path does not
    point to a document.  The document is known by its pieces, so [p1/]
    names the document [p1]. *)
Definition document_ref (id : option qvalue) : exn + string :=
  match id with
  | Some (QString path) =>
      if path =? "" then inl (InvalidArgument "documentPath")
      else if has_double_sep path then
        inl (InvalidArgument "documentPath: Paths must not contain //")
      else
        let pieces := filter (λ s, negb (s =? "")) (Path.split path) in
        if Nat.odd (length pieces) then inr (Path.unsplit pieces)
        else inl (InvalidArgument "documentPath must point to a document")
  | _ => inl (InvalidArgument "documentPath")
  end.

(** The documents of a collection are kept by the path [doc] knows them
    by. *)
Definition keys_ok {A} (docs : gmap string A) : bool :=
  forallb (λ id, match document_ref (Some (QString id)) with
                 | inr key => key =? id
                 | inl _ => false
                 end)
          (map fst (map_to_list docs)).

#[warnings="-register-all"]
Inductive node :=
| File
| Dir (entries : list (string * node)).

(** The project and bucket documents, the disk and the working directory
    of the process. *)
Record world := {
  projects : gmap string project;
  bucketDocs : gmap string bucket;
  disk : node;
  cwd : string;
  projects_ok : keys_ok projects = true;
  bucketDocs_ok : keys_ok bucketDocs = true;
}.

Fixpoint entry (name : string) (entries : list (string * node)) : option node :=
  match entries with
  | [] => None
  | (n, child) :: more => if n =? name then Some child else entry name more
  end.

(** Path resolution as the system does it, piece by piece from a
    directory: every piece, an empty one or [.] included, needs a
    directory to start from; [..] goes to the parent, which for the root
    is the root; a name goes to the entry of that name.  [above] holds
    the directories passed on the way down, nearest first. *)
Fixpoint walk (syscall path : string) (segs : list string) (n : node)
    (above : list node) : exn + node :=
  match segs with
  | [] => inr n
  | seg :: more =>
      match n with
      | File => inl (ENOTDIR syscall path)
      | Dir entries =>
          if (seg =? "") || (seg =? ".") then walk syscall path more n above
          else if seg =? ".." then
            match above with
            | [] => walk syscall path more n []
            | parent :: up => walk syscall path more parent up
            end
          else
            match entry seg entries with
            | Some child => walk syscall path more child (n :: above)
            | None => inl (ENOENT syscall path)
            end
      end
  end.

(** The empty path names nothing; a relative path is taken from the
    working directory of the process. *)
Definition locate (w : world) (syscall p : string) : exn + node :=
  if p =? "" then inl (ENOENT syscall p)
  else
    let full := if Path.isAbsolute p then p else cwd w +:+ "/" +:+ p in
    walk syscall p (Path.split full) (disk w) [].

Definition readdirSync (w : world) (p : string) : exn + list string :=
  match locate w "scandir" p with
  | inl e => inl e
  | inr File => inl (ENOTDIR "scandir" p)
  | inr (Dir entries) => inr (map fst entries)
  end.

Definition statSync (w : world) (p : string) : exn + kind :=
  match locate w "stat" p with
  | inl e => inl e
  | inr File => inr IsFile
  | inr (Dir _) => inr IsDirectory
  end.

Definition isFile (k : kind) : bool :=
  match k with IsFile => true | IsDirectory => false end.

(** ** Programs

    The body of a function of the module, as a tree of the effects it
    performs.  [AwaitProject] and [AwaitBucket] are the two suspension
    points ([await ...doc(id).get()] followed by [.data()]); [Call] invokes
    an async function, which runs up to its first suspension point and
    hands a promise back to the caller. *)

Inductive prog :=
| Ret (v : jsval)
| Throw (e : exn)
| AwaitProject (id : string) (k : option project → prog)
| AwaitBucket (id : string) (k : option bucket → prog)
| Status (code : status) (k : prog)
| Send (b : payload) (k : exn + unit → prog)
| Readdir (p : string) (k : exn + list string → prog)
| StatSync (p : string) (k : exn + kind → prog)
| Log (msg : string) (k : prog)
| Call (callee : prog) (k : jsval → prog).

Definition or_throw {A} (k : A → prog) (r : exn + A) : prog :=
  match r with
  | inl e => Throw e
  | inr a => k a
  end.

(** [try { p } catch (error) { handler error }]: an exception raised in
    [p] runs the handler.  An async function that is called inside the
    block but not awaited settles its own promise; its exceptions do not
    reach the handler. *)
Fixpoint try_catch (p : prog) (handler : exn → prog) : prog :=
  match p with
  | Ret v => Ret v
  | Throw e => handler e
  | AwaitProject id k => AwaitProject id (λ d, try_catch (k d) handler)
  | AwaitBucket id k => AwaitBucket id (λ d, try_catch (k d) handler)
  | Status code k => Status code (try_catch k handler)
  | Send b k => Send b (λ r, try_catch (k r) handler)
  | Readdir p k => Readdir p (λ r, try_catch (k r) handler)
  | StatSync p k => StatSync p (λ r, try_catch (k r) handler)
  | Log msg k => Log msg (try_catch k handler)
  | Call callee k => Call callee (λ v, try_catch (k v) handler)
  end.

Declare Scope prog_scope.
Delimit Scope prog_scope with prog.
Notation "'let*' x := op 'in' k" := (op (λ x, k))
  (at level 10, x name, op at level 100, k at level 200, only parsing)
  : prog_scope.
Notation "op ;; k" := (op k)
  (at level 100, k at level 200, right associativity, only parsing)
  : prog_scope.
Open Scope prog_scope.

(** [res.send(body)], [fs.readdirSync(p)], [fs.statSync(p)]. *)
Definition send (b : payload) (k : prog) : prog := Send b (or_throw (λ _, k)).
Definition readdir (p : string) (k : list string → prog) : prog :=
  Readdir p (or_throw k).
Definition stat (p : string) (k : kind → prog) : prog :=
  StatSync p (or_throw k).

(** ** Running a request *)

Inductive event :=
| EvGet (collection id : string)
| EvReaddir (p : string)
| EvStat (p : string)
| EvSend (code : status) (b : payload)
| EvLog (msg : string).

Inductive suspended :=
| WaitProject (id : string) (k : option project → prog)
| WaitBucket (id : string) (k : option bucket → prog).

Inductive outcome :=
| Fulfilled (v : jsval)
| Rejected (e : exn).

Record state := {
  env : world;
  statusCode : status;
  sent : option response;
  effects : list event;
  waiting : list (nat * suspended);
  settled : list (nat * outcome);
  fresh : nat;
}.

Definition start (w : world) : state :=
  {| env := w; statusCode := OK; sent := None; effects := [];
     waiting := []; settled := []; fresh := 1 |}.

Definition record (ev : event) (st : state) : state :=
  {| env := env st; statusCode := statusCode st; sent := sent st;
     effects := effects st ++ [ev]; waiting := waiting st;
     settled := settled st; fresh := fresh st |}.

Definition settle (task : nat) (o : outcome) (st : state) : state :=
  {| env := env st; statusCode := statusCode st; sent := sent st;
     effects := effects st; waiting := waiting st;
     settled := settled st ++ [(task, o)]; fresh := fresh st |}.

Definition suspend (task : nat) (s : suspended) (st : state) : state :=
  {| env := env st; statusCode := statusCode st; sent := sent st;
     effects := effects st; waiting := waiting st ++ [(task, s)];
     settled := settled st; fresh := fresh st |}.

Definition set_status (code : status) (st : state) : state :=
  {| env := env st; statusCode := code; sent := sent st;
     effects := effects st; waiting := waiting st;
     settled := settled st; fresh := fresh st |}.

Definition deliver (b : payload) (st : state) : state :=
  {| env := env st; statusCode := statusCode st;
     sent := Some (statusCode st, b);
     effects := effects st ++ [EvSend (statusCode st) b];
     waiting := waiting st; settled := settled st; fresh := fresh st |}.

Definition allocate (st : state) : state :=
  {| env := env st; statusCode := statusCode st; sent := sent st;
     effects := effects st; waiting := waiting st;
     settled := settled st; fresh := S (fresh st) |}.

(** Run task [task] until it returns, throws or suspends.  [res.status]
    only stores the code; [res.send] answers the request with the stored
    code, and throws once an answer has been sent. *)
Fixpoint exec (task : nat) (p : prog) (st : state) : state :=
  match p with
  | Ret v => settle task (Fulfilled v) st
  | Throw e => settle task (Rejected e) st
  | AwaitProject id k =>
      suspend task (WaitProject id k) (record (EvGet "projects" id) st)
  | AwaitBucket id k =>
      suspend task (WaitBucket id k) (record (EvGet "buckets" id) st)
  | Status code k => exec task k (set_status code st)
  | Send b k =>
      match sent st with
      | None => exec task (k (inr ())) (deliver b st)
      | Some _ => exec task (k (inl HeadersSent)) st
      end
  | Readdir p k =>
      exec task (k (readdirSync (env st) p)) (record (EvReaddir p) st)
  | StatSync p k =>
      exec task (k (statSync (env st) p)) (record (EvStat p) st)
  | Log msg k => exec task k (record (EvLog msg) st)
  | Call callee k =>
      let child := fresh st in
      exec task (k (JPromise child)) (exec child callee (allocate st))
  end.

Definition unwait (i : nat) (st : state) : state :=
  {| env := env st; statusCode := statusCode st; sent := sent st;
     effects := effects st; waiting := delete i (waiting st);
     settled := settled st; fresh := fresh st |}.

(** One pending read completes and its task goes on: the read at
    position [i] of the waiting list, or the newest one when [i] is
    beyond the list. *)
Definition resume (i : nat) (st : state) : state :=
  let i := i `min` pred (length (waiting st)) in
  match waiting st !! i with
  | None => st
  | Some (task, WaitProject id k) =>
      exec task (k (projects (env st) !! id)) (unwait i st)
  | Some (task, WaitBucket id k) =>
      exec task (k (bucketDocs (env st) !! id)) (unwait i st)
  end.

(** The pending reads complete in the order given by [sched]. *)
Definition drain (sched : list nat) (st : state) : state :=
  fold_left (λ st i, resume i st) sched st.

(** Express calls the handler (task 0) with a fresh response object. *)
Definition serve (w : world) (handler : prog) (sched : list nat) : state :=
  drain sched (exec 0 handler (start w)).

(** ** The routes *)

Record request := {
  query : gmap string qvalue;
  body : option (gmap string string);
  params : gmap string string;
  uid : string;
}.

(** Modelled from the spec: misc/DataValidation is not among the sources
    and the spec leaves request validation out.  By its name, and by the
    answer the listing route gives when it fails ("Require: pid, bid, d"),
    [allNotUndefined] holds when none of its arguments is [undefined]. *)
Definition allNotUndefined (args : list (option qvalue)) : bool :=
  forallb (λ a, bool_decide (is_Some a)) args.

(** A possibly undefined value spliced into a string. *)
Definition text (v : option qvalue) : string :=
  from_option to_string "undefined" v.

(** [array.includes(x)]. *)
Definition includes (l : list string) (x : string) : bool :=
  bool_decide (x ∈ l).

(** [collection(...).doc(id)]: throws for what names no document, and
    otherwise refers to the document by the path [doc] knows it by. *)
Definition firestore_doc (id : option qvalue) (k : string → prog) : prog :=
  or_throw k (document_ref id).

(** Reading a property of the data of a document that does not exist. *)
Definition property {A B} (name : string) (get : A → B) (data : option A)
    (k : B → prog) : prog :=
  match data with
  | Some a => k (get a)
  | None => Throw (TypeError ("Cannot read properties of undefined: " +:+ name))
  end.

(** The string a value is, when it is one. *)
Definition as_string (v : option qvalue) : option string :=
  match v with
  | Some (QString s) => Some s
  | _ => None
  end.

(** [path.join] insists on string arguments. *)
Definition path_join (args : list (option qvalue)) (k : string → prog) : prog :=
  if forallb (λ a, bool_decide (is_Some (as_string a))) args
  then k (Path.join (omap as_string args))
  else Throw (TypeError "path").

(** [if (c) { then_ }] followed by the rest of the block. *)
Definition when (c : bool) (then_ : prog → prog) (k : prog) : prog :=
  if c then then_ k else k.

(** The identifiers bound at module level, and by Node around the module. *)
Definition module_scope : list string :=
  ["router"; "authorization"; "admin"; "fs"; "bucketQueue"; "statusCode";
   "DataValidation"; "Config"; "path"; "multer"; "storage"; "uploadFile";
   "checkProjectPerm"; "require"; "module"; "exports"; "console"; "Date"].

(** Evaluating an identifier: a [ReferenceError] when nothing binds it. *)
Definition identifier (scope : list string) (x : string) (k : jsval → prog)
  : prog :=
  if bool_decide (x ∈ scope) then k JObject else Throw (ReferenceError x).

(** [const { ... } = source]. *)
Definition destructure (source : option (gmap string string))
    (k : gmap string string → prog) : prog :=
  match source with
  | Some fields => k fields
  | None => Throw (TypeError "Cannot destructure")
  end.

(** [items.filter((f) => fs.statSync(f).isFile())]. *)
Fixpoint filter_isFile (items : list string) (k : list string → prog) : prog :=
  match items with
  | [] => k []
  | f :: more =>
      let* st := stat f in
      let* rest := filter_isFile more in
      k (if isFile st then f :: rest else rest)
  end.

Section Routes.

(** [Config.bucketSite]. *)
Variable bucketSite : string.

Definition checkProjectPerm (pid : option qvalue) (uid : string) : prog :=
  let* projectDoc := firestore_doc pid in
  let* projectData := AwaitProject projectDoc in
  let* owner := property "ownerId" ownerId projectData in
  if negb (owner =? uid) then
    let* members := property "collaborators" collaborators projectData in
    if negb (includes members uid) then
      Status Forbidden ;;
      send (Message ("Accessing to project [" +:+ text pid +:+ "] does not allow")) ;;
      Ret (JBool false)
    else Ret (JBool true)
  else Ret (JBool true).


Definition currentDir (bid d : string) : string :=
  Path.join [bucketSite; bid; d].

(** GET /v1/bucket/list *)
Definition get_list (req : request) : prog :=
  let pid := query req !! "pid" in
  try_catch
    (when (negb (allNotUndefined [pid]))
       (λ k, Status NotFound ;; send (Message "Not Found") ;; k) ;;
     let* perm := Call (checkProjectPerm pid (uid req)) in
     if negb (truthy perm) then Ret JUndefined
     else
       Status OK ;;
       let* projectData := identifier (["req"; "res"; "pid"] ++ module_scope)
                                      "projectData" in
       send (Buckets projectData) ;;
       Ret JUndefined)
    (λ error,
       Status InternalServerError ;;
       send (ErrorFields error) ;;
       Log "GET -> bucket/listing: " ;;
       Ret JUndefined).

(** GET /v1/bucket/ *)
Definition get_root (req : request) : prog :=
  let pid := query req !! "pid" in
  let bid := query req !! "bid" in
  let d := query req !! "d" in
  if negb (allNotUndefined [pid; bid; d]) then
    Status NotFound ;; send (Message "Require: pid, bid, d") ;; Ret JUndefined
  else
    try_catch
      (let* perm := Call (checkProjectPerm pid (uid req)) in
       if negb (truthy perm) then Ret JUndefined
       else
         let* bucketDoc := firestore_doc bid in
         let* bucketData := AwaitBucket bucketDoc in
         let* public := property "isPublic" isPublic bucketData in
         if negb public then
           Status NotFound ;;
           send (Message ("Bucket [" +:+ text bid +:+ "] is not public")) ;;
           Ret JUndefined
         else
           let* currentDir := path_join [Some (QString bucketSite); bid; d] in
           let* items := readdir currentDir in
           let* files := filter_isFile items in
           let folders := filter (λ f, negb (includes files f)) items in
           Status OK ;; send (Listing files folders) ;; Ret JUndefined)
      (λ error,
         Status InternalServerError ;;
         send (Message "Internal Server Error") ;;
         Log "GET -> bucket /: " ;;
         Ret JUndefined).

(** GET /v1/bucket/metadata *)
Definition get_metadata (req : request) : prog :=
  let pid := query req !! "pid" in
  let bid := query req !! "bid" in
  let f := query req !! "f" in
  if negb (allNotUndefined [pid; bid; f]) then
    Status NotFound ;; send (Message "Not Found") ;; Ret JUndefined
  else
    try_catch
      (let* perm := Call (checkProjectPerm pid (uid req)) in
       if negb (truthy perm) then Ret JUndefined
       else
         let* bucketDoc := firestore_doc bid in
         let* bucketData := AwaitBucket bucketDoc in
         let* public := property "isPublic" isPublic bucketData in
         if negb public then
           Status NotFound ;; send (Message "Not Found") ;; Ret JUndefined
         else
           let* currentDir := path_join [Some (QString bucketSite); bid; f] in
           let* st := stat currentDir in
           Status OK ;; send (Stat st) ;; Ret JUndefined)
      (λ error,
         Status InternalServerError ;;
         send (ErrorFields error) ;;
         Log "GET -> bucket/metadata: " ;;
         Ret JUndefined).

End Routes.

(** POST /v1/bucket/upload *)
Definition post_upload (req : request) : prog :=
  let pid := query req !! "pid" in
  let bid := query req !! "bid" in
  let d := query req !! "d" in
  if negb (allNotUndefined [pid; bid; d]) then
    Status NotFound ;; send (Message "Not Found") ;; Ret JUndefined
  else
    try_catch
      (Status OK ;; send Files ;; Ret JUndefined)
      (λ error,
         Status InternalServerError ;;
         send (ErrorFields error) ;;
         Log "POST -> upload/file: " ;;
         Ret JUndefined).

(** PUT /v1/bucket/mkdir *)
Definition put_mkdir (req : request) : prog :=
  let* fields := destructure (body req) in
  let pid := fields !! "pid" in
  let bid := fields !! "bid" in
  let dir := fields !! "dir" in
  let d := fields !! "d" in
  Ret JUndefined.

(** PUT /v1/bucket/mv *)
Definition put_mv (req : request) : prog :=
  let* fields := destructure (body req) in
  let pid := fields !! "pid" in
  let bid := fields !! "bid" in
  let src := fields !! "src" in
  let des := fields !! "des" in
  Ret JUndefined.

(** PUT /v1/bucket/cp *)
Definition put_cp (req : request) : prog :=
  let* fields := destructure (body req) in
  let pid := fields !! "pid" in
  let bid := fields !! "bid" in
  let src := fields !! "src" in
  let des := fields !! "des" in
  Ret JUndefined.

(** PUT /v1/bucket/rm *)
Definition put_rm (req : request) : prog :=
  let* fields := destructure (body req) in
  let pid := fields !! "pid" in
  let bid := fields !! "bid" in
  let d := fields !! "d" in
  Ret JUndefined.

(** GET /v1/bucket/download *)
Definition get_download (req : request) : prog :=
  let pid := query req !! "pid" in
  let bid := query req !! "bid" in
  let f := query req !! "f" in
  Ret JUndefined.

(** GET /v1/bucket/jobs *)
Definition get_jobs (req : request) : prog :=
  let pid := params req !! "pid" in
  Ret JUndefined.

(** PUT /v1/bucket/zip *)
Definition put_zip (req : request) : prog :=
  let* fields := destructure (body req) in
  let pid := fields !! "pid" in
  let bid := fields !! "bid" in
  let src := fields !! "src" in
  let des := fields !! "des" in
  Ret JUndefined.

(** PUT /v1/bucket/unzip *)
Definition put_unzip (req : request) : prog :=
  let* fields := destructure (body req) in
  let pid := fields !! "pid" in
  let bid := fields !! "bid" in
  let src := fields !! "src" in
  let des := fields !! "des" in
  Ret JUndefined.

(** PUT /v1/bucket/download-job *)
Definition put_download_job (req : request) : prog :=
  let* fields := destructure (body req) in
  let pid := fields !! "pid" in
  let bid := fields !! "bid" in
  let url := fields !! "url" in
  let des := fields !! "des" in
  Ret JUndefined.

(** ** The multer disk storage *)

(** A number appended to a string: its decimal digits, for the whole
    numbers [Date.now()] returns. *)
Definition number_text (n : N) : string :=
  NilEmpty.string_of_uint (N.to_uint n).

(** Reading decimal digits as a number. *)
Definition decimal_value (digits : string) : option N :=
  option_map N.of_uint (NilEmpty.uint_of_string digits).

(** [destination]: every upload goes to the directory [upload]. *)
Definition destination : string := "upload".

(** [filename]: [path.extname(file.originalname) + Date.now()] is handed
    to the callback; the [console.log] before it has no part in the name. *)
Definition filename (originalname : string) (now : N) : string :=
  Path.extname originalname +:+ number_text now.

(** ** The routes by group *)

Inductive job_kind := Zip | Unzip | DownloadJob.

(** The route that is to submit a job of the given kind. *)
Definition submit_route (kind : job_kind) : request → prog :=
  match kind with
  | Zip => put_zip
  | Unzip => put_unzip
  | DownloadJob => put_download_job
  end.

Inductive file_op := Mkdir | Mv | Cp | Rm.

Definition file_route (op : file_op) : request → prog :=
  match op with
  | Mkdir => put_mkdir
  | Mv => put_mv
  | Cp => put_cp
  | Rm => put_rm
  end.

Inductive job_request :=
| Submit (kind : job_kind) (req : request)
| ListJobs (req : request).

Definition job_route (r : job_request) : prog :=
  match r with
  | Submit kind req => submit_route kind req
  | ListJobs req => get_jobs req
  end.

(** Requests served one after the other, each on the stores the one
    before left: the stores at the end, and the answer to each request. *)
Fixpoint session (w : world) (rs : list (prog * list nat))
  : world * list (option response) :=
  match rs with
  | [] => (w, [])
  | (handler, sched) :: more =>
      let st := serve w handler sched in
      let '(w', answers) := session (env st) more in
      (w', sent st :: answers)
  end.

(** [user] is the owner of the project or one of its collaborators. *)
Definition member (user : string) (pr : project) : Prop :=
  user = ownerId pr ∨ user ∈ collaborators pr.

(** The permission check of project [pid] turns [user] away: the project
    exists and [user] is neither its owner nor one of its collaborators. *)
Definition denied (w : world) (pid user : string) : Prop :=
  ∃ pr, projects w !! pid = Some pr
        ∧ user ≠ ownerId pr ∧ user ∉ collaborators pr.

(** ** The job manager *)

Module Jobs.

(** Modelled from the spec: the states of a job.  The router requires
    jobs/bucket.jobs as [bucketQueue]; that module is not among the
    sources, and no route calls it.  The definitions of this module are
    the job manager as the spec words it: "state (Queued, Running,
    Succeeded, Failed, Cancelled)". *)
Inductive job_state := Queued | Running | Succeeded | Failed | Cancelled.

Definition terminal (s : job_state) : bool :=
  match s with
  | Succeeded | Failed | Cancelled => true
  | Queued | Running => false
  end.



Record job := {
  operation : job_kind;
  bucketId : string;
  owner : string;
  state : job_state;
}.

Definition with_state (s : job_state) (j : job) : job :=
  {| operation := operation j; bucketId := bucketId j; owner := owner j;
     state := s |}.

(** The registry, keyed by job id, and the id the next job gets. *)
Record manager := {
  registry : gmap N job;
  next_id : N;
}.

Definition empty : manager := {| registry := ∅; next_id := 0 |}.

(** Modelled from the spec: "status(jobId) -> JobView | fails(NotFound)". *)
Definition status (m : manager) (id : N) : option job := registry m !! id.

(** Modelled from the spec: "submit(bucketId, userId, operation, params)
    -> JobId (always succeeds and returns immediately)"; a job is "created
    on submission (Queued)". *)
Definition submit (m : manager) (op : job_kind) (bid user : string)
  : manager * N :=
  ({| registry := <[next_id m := {| operation := op; bucketId := bid;
                                    owner := user; state := Queued |}]>
                    (registry m);
      next_id := N.succ (next_id m) |},
   next_id m).

Definition set_state (id : N) (s : job_state) (m : manager) : manager :=
  {| registry := alter (with_state s) id (registry m); next_id := next_id m |}.

(** Modelled from the spec: what happens to the registry.  A job is
    "mutated only by the worker that owns it (Running -> terminal state)
    or by a cancellation request (Queued/Running -> Cancelled), retained
    for a bounded retention window after reaching a terminal state, then
    eligible for eviction"; "cancel(jobId) -> fails(NotFound |
    AlreadyTerminal)"; "on process restart, any job left Running is
    reconciled to Failed". *)
Inductive action :=
| Submit (op : job_kind) (bid user : string)
| Start (id : N)
| Finish (id : N) (succeeded : bool)
| Cancel (id : N)
| ProcessRestart
| Evict (id : N).

(** Modelled from the spec: the effect of one action; one that does not
    apply leaves the registry as it is. *)
Definition act (m : manager) (a : action) : manager :=
  match a with
  | Submit op bid user => (submit m op bid user).1
  | Start id =>
      match status m id with
      | Some j => match state j with
                  | Queued => set_state id Running m
                  | _ => m
                  end
      | None => m
      end
  | Finish id succeeded =>
      match status m id with
      | Some j => match state j with
                  | Running =>
                      set_state id (if succeeded then Succeeded else Failed) m
                  | _ => m
                  end
      | None => m
      end
  | Cancel id =>
      match status m id with
      | Some j => if terminal (state j) then m else set_state id Cancelled m
      | None => m
      end
  | ProcessRestart =>
      {| registry := (λ j, match state j with
                           | Running => with_state Failed j
                           | _ => j
                           end) <$> registry m;
         next_id := next_id m |}
  | Evict id =>
      match status m id with
      | Some j =>
          if terminal (state j)
          then {| registry := delete id (registry m); next_id := next_id m |}
          else m
      | None => m
      end
  end.

Definition run (m : manager) (actions : list action) : manager :=
  fold_left act actions m.


End Jobs.

(** ** A small installation *)

Module Sample.

Definition site : string := "/srv/buckets".

Definition p1 : project :=
  {| ownerId := "alice"; collaborators := ["bob"]; buckets := ["b1"; "b2"] |}.

(** Bucket [b1] is public and holds the file [a.txt] and the empty
    directory [sub]; bucket [b2] is private.  The working directory of
    the process, [/app], has a directory called [a.txt] and a file called
    [sub]. *)
Definition tree : node :=
  Dir [("srv", Dir [("buckets",
          Dir [("b1", Dir [("a.txt", File); ("sub", Dir [])]);
               ("b2", Dir [("secret", File)])])]);
       ("etc", Dir [("passwd", File)]);
       ("app", Dir [("a.txt", Dir []); ("sub", File)])].

Definition w : world :=
  {| projects := {[ "p1" := p1 ]};
     bucketDocs := <[ "b1" := {| isPublic := true |} ]>
                     {[ "b2" := {| isPublic := false |} ]};
     disk := tree;
     cwd := "/app";
     projects_ok := eq_refl;
     bucketDocs_ok := eq_refl |}.

(** The same installation started from [/srv]. *)
Definition elsewhere : world :=
  {| projects := projects w; bucketDocs := bucketDocs w; disk := tree;
     cwd := "/srv"; projects_ok := projects_ok w;
     bucketDocs_ok := bucketDocs_ok w |}.

Definition ask (user : string) (q : list (string * string)) : request :=
  {| query := QString <$> list_to_map q; body := None; params := ∅;
     uid := user |}.

Definition put (user : string) (fields : list (string * string)) : request :=
  {| query := ∅; body := Some (list_to_map fields); params := ∅; uid := user |}.

(** The two orders in which a project read and a bucket read that are
    both pending can complete. *)
Definition project_first : list nat := [0; 0].
Definition bucket_first : list nat := [1; 0].

End Sample.

(** ** The answers of the listing and metadata routes in closed form *)

(** The frame the listing and the metadata handlers share: inside the
    [try] block the permission check is called and the promise it returns
    is tested, the bucket document is read, and [after] goes on with its
    data. *)
Definition guarded (pid : option qvalue) (user : string) (bid : option qvalue)
    (after : option bucket → prog) (handler : exn → prog) : prog :=
  try_catch
    (let* perm := Call (checkProjectPerm pid user) in
     if negb (truthy perm) then Ret JUndefined
     else
       let* bucketDoc := firestore_doc bid in
       let* bucketData := AwaitBucket bucketDoc in
       after bucketData)
    handler.

Definition record_all (evs : list event) (st : state) : state :=
  fold_left (λ st ev, record ev st) evs st.

(** The entries [items.filter((f) => fs.statSync(f).isFile())] stats: all
    of them up to the first one the stat fails on. *)
Fixpoint statted (w : world) (items : list string) : list string :=
  match items with
  | [] => []
  | f :: more =>
      match statSync w f with
      | inl _ => [f]
      | inr _ => f :: statted w more
      end
  end.

(** What that filter evaluates to: the entries whose bare name is a file,
    or the error of the first stat that fails. *)
Fixpoint files_among (w : world) (items : list string) : exn + list string :=
  match items with
  | [] => inr []
  | f :: more =>
      match statSync w f with
      | inl e => inl e
      | inr found =>
          match files_among w more with
          | inl e => inl e
          | inr rest => inr (if isFile found then f :: rest else rest)
          end
      end
  end.


(** The answer of the catch branch of the listing route. *)
Definition failed : response :=
  (InternalServerError, Message "Internal Server Error").

(** The answer of the listing route for a public bucket whose directory
    is [dir]. *)
Definition listing_of (w : world) (dir : string) : response :=
  match readdirSync w dir with
  | inl _ => failed
  | inr items =>
      match files_among w items with
      | inl _ => failed
      | inr files =>
          (OK, Listing files (filter (λ f, negb (includes files f)) items))
      end
  end.

(** The answer of the listing route to a request with [bid] and [d],
    when the permission check has not answered before: the answer of the
    catch branch when [doc(bid)] throws, when the bucket has no document,
    and when [path.join] throws for a [d] that is not a string. *)
Definition root_answer (site : string) (w : world) (bid d : qvalue) : response :=
  match document_ref (Some bid) with
  | inl _ => failed
  | inr key =>
      match bucketDocs w !! key with
      | None => failed
      | Some b =>
          if isPublic b then
            match as_string (Some bid), as_string (Some d) with
            | Some bid, Some d => listing_of w (currentDir site bid d)
            | _, _ => failed
            end
          else (NotFound,
                Message ("Bucket [" +:+ to_string bid +:+ "] is not public"))
      end
  end.

(** The answer of the metadata route to a request with [bid] and [f],
    when the permission check has not answered before. *)
Definition stat_answer (site : string) (w : world) (bid f : qvalue) : response :=
  match document_ref (Some bid) with
  | inl error => (InternalServerError, ErrorFields error)
  | inr key =>
      match bucketDocs w !! key with
      | None =>
          (InternalServerError,
           ErrorFields (TypeError "Cannot read properties of undefined: isPublic"))
      | Some b =>
          if isPublic b then
            match as_string (Some bid), as_string (Some f) with
            | Some bid, Some f =>
                match statSync w (currentDir site bid f) with
                | inr found => (OK, Stat found)
                | inl error => (InternalServerError, ErrorFields error)
                end
            | _, _ => (InternalServerError, ErrorFields (TypeError "path"))
            end
          else (NotFound, Message "Not Found")
      end
  end.

(** The answer of the permission check to a user it turns away. *)
Definition forbidden (pid : qvalue) : response :=
  (Forbidden,
   Message ("Accessing to project [" +:+ to_string pid +:+ "] does not allow")).

(** The permission check called with [pid] turns [user] away: [pid] names
    a project document, and [user] is neither the owner nor one of the
    collaborators of that project. *)
Definition turned_away (w : world) (pid : qvalue) (user : string) : Prop :=
  ∃ key, document_ref (Some pid) = inr key ∧ denied w key user.

(** The routes from PUT /mkdir on that read [req.body], and the two that
    read [req.query] and [req.params]. *)
Definition body_routes : list (request → prog) :=
  [put_mkdir; put_mv; put_cp; put_rm; put_zip; put_unzip; put_download_job].

Definition query_routes : list (request → prog) :=
  [get_download; get_jobs].

(** ** The scan of [path.extname], by what it has seen *)

Module Scan.
Import Path.

Definition is_dot (c : ascii) : bool := Ascii.eqb c ".".

Definition all_sep (s : string) : bool :=
  forallb is_sep (list_ascii_of_string s).

(** What the scan state holds when the characters [post] that follow
    [pre] have been read from the right: only separators so far, or the
    trailing separators [trail] and before them the characters [mid] of
    the last component, whose last dot is recorded. *)
Definition scanned (pre post : list ascii) (st : ext_scan) : Prop :=
  (end_ st = (-1)%Z ∧ startDot st = (-1)%Z ∧ matchedSlash st = true
   ∧ Forall (λ c, is_sep c = true) post)
  ∨ ∃ mid trail,
      post = mid ++ trail ∧ Forall (λ c, is_sep c = false) mid
      ∧ Forall (λ c, is_sep c = true) trail
      ∧ end_ st = Z.of_nat (length pre + length mid) ∧ mid ≠ []
      ∧ matchedSlash st = false
      ∧ ((startDot st = (-1)%Z ∧ Forall (λ c, is_dot c = false) mid)
         ∨ ∃ a b, mid = a ++ "."%char :: b
                  ∧ Forall (λ c, is_dot c = false) b
                  ∧ startDot st = Z.of_nat (length pre + length a)).

(** What the scan has found when it stops: no dot, or the last dot of
    the last component with the plain characters [b] after it. *)
Definition found (full : list ascii) (st : ext_scan) : Prop :=
  startDot st = (-1)%Z
  ∨ ∃ front b trail,
      full = front ++ "."%char :: b ++ trail
      ∧ startDot st = Z.of_nat (length front)
      ∧ end_ st = Z.of_nat (length front + 1 + length b)
      ∧ forallb plain_char b = true
      ∧ Forall (λ c, is_sep c = true) trail.

End Scan.

(** * Properties *)

(** ** Paths *)

Example join_root : Path.join ["/srv/buckets"; "b1"; "/"] = "/srv/buckets/b1/".
Proof. reflexivity. Qed.
Example join_up : Path.join ["/srv/buckets"; "b1"; "../../../etc/passwd"] = "/etc/passwd".
Proof. reflexivity. Qed.
Example join_misc :
  map Path.join [["a"; ""; "b"]; [""; ""]; ["a/"; "/b"]; [".."; "x"];
                 ["a"; "../.."]; ["/a"; "../.."]; ["./a"]; ["a/."]; ["a/./"];
                 ["./"]; ["a"; ".."]; ["/"; ".."]]
  = ["a/b"; "."; "a/b"; "../x"; ".."; "/"; "a"; "a"; "a/"; "./"; "."; "/"].
Proof. reflexivity. Qed.
Example extname_misc :
  map Path.extname ["index.html"; "index.coffee.md"; "index."; "index";
                    ".index"; ".index.md"; "a/b.c/d"; ".."; "file.txt/";
                    "a.b/.."; ""; "x/.y"]
  = [".html"; ".md"; "."; ""; ""; ".md"; ""; ""; ".txt"; ""; ""; ""].
Proof. reflexivity. Qed.

Module PathFacts.
Import Path.


Lemma append_empty t : "" +:+ t = t.
Proof. reflexivity. Qed.

Lemma split_not_nil s : split s ≠ [].
Proof.
  destruct s as [|c s]; simpl; [done|].
  destruct (is_sep c); [done|]. by destruct (split s).
Qed.

Lemma split_app_sep a b : split (a +:+ String sep b) = split a ++ split b.
Proof.
  induction a as [|c a IH]; simpl.
  - reflexivity.
  - destruct (is_sep c); [by rewrite IH|].
    rewrite IH. pose proof (split_not_nil a) as Hne.
    by destruct (split a).
Qed.

Lemma split_piece s : no_sep s = true → split s = [s].
Proof.
  induction s as [|c s IH]; simpl; [done|].
  intros [Hc Hs]%andb_prop. apply negb_true_iff in Hc. rewrite Hc.
  by rewrite (IH Hs).
Qed.

Lemma split_no_sep s : Forall (λ piece, no_sep piece = true) (split s).
Proof.
  induction s as [|c s IH]; simpl.
  - by constructor.
  - destruct (is_sep c) eqn:Hc; [by constructor|].
    destruct (split s) as [|piece pieces]; [by constructor; simpl; rewrite ?Hc|].
    inversion IH; subst. constructor; [|done]. simpl. by rewrite Hc.
Qed.

Lemma split_unsplit segs :
  segs ≠ [] → Forall (λ piece, no_sep piece = true) segs →
  split (unsplit segs) = segs.
Proof.
  induction segs as [|p segs IH]; [done|].
  intros _ Hall. inversion Hall as [|? ? Hp Hrest]; subst.
  destruct segs as [|q more].
  - simpl. by apply split_piece.
  - change (unsplit (p :: q :: more))
      with (p +:+ String sep (unsplit (q :: more))).
    rewrite split_app_sep, (split_piece p Hp), IH; done.
Qed.


Lemma proper_dotdot : proper "..".
Proof. by repeat split. Qed.

Lemma normalize_step_proper allow kept seg :
  no_sep seg = true → Forall proper kept →
  Forall proper (normalize_step allow kept seg).
Proof.
  intros Hseg Hkept. unfold normalize_step.
  destruct (String.eqb_spec seg "") as [->|Hne]; simpl; [done|].
  destruct (String.eqb_spec seg ".") as [->|Hnd]; simpl; [done|].
  destruct (String.eqb_spec seg "..") as [->|Hndd].
  - pose proof proper_dotdot.
    destruct kept as [|last before]; [destruct allow; by repeat constructor|].
    inversion Hkept; subst.
    destruct (last =? ".."); [|done].
    destruct allow; [|done]. by constructor.
  - by constructor.
Qed.

Lemma fold_normalize_proper allow segs kept :
  Forall (λ piece, no_sep piece = true) segs → Forall proper kept →
  Forall proper (fold_left (normalize_step allow) segs kept).
Proof.
  revert kept. induction segs as [|seg segs IH]; intros kept Hsegs Hkept.
  - done.
  - inversion Hsegs; subst. simpl. apply IH; [done|].
    by apply normalize_step_proper.
Qed.

Lemma normalizeString_proper allow p :
  Forall proper (normalizeString allow (split p)).
Proof.
  unfold normalizeString. apply Forall_rev.
  apply fold_normalize_proper; [apply split_no_sep | constructor].
Qed.

Lemma filter_proper segs :
  Forall proper segs →
  filter (λ s, negb ((s =? "") || (s =? "."))) segs = segs.
Proof.
  induction 1 as [|s segs (_ & Hne & Hnd) _ IH]; [done|].
  rewrite filter_cons_True, IH; [done|].
  apply Is_true_true. apply negb_true_iff, orb_false_iff.
  split; by apply String.eqb_neq.
Qed.

Lemma components_unsplit segs :
  Forall proper segs → components (unsplit segs) = segs.
Proof.
  intros Hall. destruct segs as [|s segs]; [reflexivity|].
  unfold components. rewrite split_unsplit; [by apply filter_proper|done|].
  eapply Forall_impl; [exact Hall|]. by intros ? (? & _).
Qed.

Lemma components_lead x : components ("/" +:+ x) = components x.
Proof. reflexivity. Qed.

Lemma components_trail x : components (x +:+ "/") = components x.
Proof.
  unfold components.
  change (x +:+ "/") with (x +:+ String sep "").
  rewrite split_app_sep, filter_app. simpl.
  rewrite filter_cons_False by (by intros ?). by rewrite filter_nil, app_nil_r.
Qed.

(** The names in a normalized path are the segments normalization
    keeps. *)
Lemma components_normalize p :
  components (normalize p) = normalizeString (negb (isAbsolute p)) (split p).
Proof.
  unfold normalize.
  destruct (String.eqb_spec p "") as [->|Hp]; [reflexivity|].
  pose proof (normalizeString_proper (negb (isAbsolute p)) p) as Hall.
  destruct (normalizeString (negb (isAbsolute p)) (split p)) as [|s segs] eqn:E.
  - by destruct (isAbsolute p), (ends_with_sep p).
  - destruct (isAbsolute p), (ends_with_sep p);
      rewrite ?components_lead, ?components_trail;
      by apply components_unsplit.
Qed.


Lemma isAbsolute_append a b : a ≠ "" → isAbsolute (a +:+ b) = isAbsolute a.
Proof. by destruct a. Qed.



(** Normalizing and joining keep a path absolute or relative. *)
Lemma isAbsolute_proper s : proper s → isAbsolute s = false.
Proof.
  intros (Hsep & Hne & _). destruct s as [|c s]; [done|].
  simpl in *. apply andb_prop in Hsep as [Hc _]. by apply negb_true_iff.
Qed.

Lemma isAbsolute_unsplit s segs :
  s ≠ "" → isAbsolute (unsplit (s :: segs)) = isAbsolute s.
Proof.
  intros Hs. destruct segs as [|q more]; [done|].
  change (unsplit (s :: q :: more)) with (s +:+ String sep (unsplit (q :: more))).
  by apply isAbsolute_append.
Qed.

Lemma unsplit_cons_not_empty s segs : s ≠ "" → unsplit (s :: segs) ≠ "".
Proof.
  intros Hs. destruct segs as [|q more]; [done|].
  change (unsplit (s :: q :: more)) with (s +:+ String sep (unsplit (q :: more))).
  by destruct s.
Qed.

Lemma isAbsolute_normalize p : p ≠ "" → isAbsolute (normalize p) = isAbsolute p.
Proof.
  intros Hp. unfold normalize.
  destruct (String.eqb_spec p "") as [->|_]; [done|].
  pose proof (normalizeString_proper (negb (isAbsolute p)) p) as Hall.
  destruct (normalizeString (negb (isAbsolute p)) (split p)) as [|s segs].
  - by destruct (isAbsolute p), (ends_with_sep p).
  - inversion Hall as [|? ? Hs _]; subst.
    assert (s ≠ "") as Hne by (by destruct Hs as (_ & ? & _)).
    destruct (isAbsolute p); [done|].
    destruct (ends_with_sep p);
      rewrite ?isAbsolute_append by (by apply unsplit_cons_not_empty);
      rewrite isAbsolute_unsplit by done; by apply isAbsolute_proper.
Qed.

Lemma isAbsolute_join site more :
  site ≠ "" → isAbsolute (join (site :: more)) = isAbsolute site.
Proof.
  intros Hsite. unfold join.
  rewrite filter_cons_True
    by (apply Is_true_true, negb_true_iff; by apply String.eqb_neq).
  rewrite isAbsolute_normalize by (by apply unsplit_cons_not_empty).
  by apply isAbsolute_unsplit.
Qed.

End PathFacts.

(** ** What running a task preserves *)

Section Frame.

Ltac by_program p :=
  induction p as [v|e|id k IH|id k IH|code k IH|b k IH|path k IH|path k IH
                 |msg k IH|callee IHc k IH].

Lemma exec_env task p st : env (exec task p st) = env st.
Proof.
  revert task st. by_program p; intros task st; simpl; try done.
  - by rewrite IH.
  - destruct (sent st); by rewrite IH.
  - by rewrite IH.
  - by rewrite IH.
  - by rewrite IH.
  - by rewrite IH, IHc.
Qed.

Lemma exec_sent_kept task p st r :
  sent st = Some r → sent (exec task p st) = Some r.
Proof.
  revert task st. by_program p; intros task st Hsent; simpl; try done.
  - by apply IH.
  - rewrite Hsent. by apply IH.
  - by apply IH.
  - by apply IH.
  - by apply IH.
  - by apply IH, IHc.
Qed.

Lemma exec_effects task p st : effects st `prefix_of` effects (exec task p st).
Proof.
  revert task st.
  by_program p; intros task st; simpl; try done; try (by apply prefix_app_r).
  - apply (IH _ (set_status _ _)).
  - destruct (sent st); [apply IH|].
    etrans; [|apply IH]. by apply prefix_app_r.
  - etrans; [|apply IH]. by apply prefix_app_r.
  - etrans; [|apply IH]. by apply prefix_app_r.
  - etrans; [|apply IH]. by apply prefix_app_r.
  - etrans; [|apply IH]. apply (IHc _ (allocate _)).
Qed.

Lemma exec_settled task p st : settled st `prefix_of` settled (exec task p st).
Proof.
  revert task st.
  by_program p; intros task st; simpl; try done; try (by apply prefix_app_r).
  - apply (IH _ (set_status _ _)).
  - destruct (sent st); [apply IH|apply (IH _ _ (deliver _ _))].
  - apply (IH _ _ (record _ _)).
  - apply (IH _ _ (record _ _)).
  - apply (IH _ (record _ _)).
  - etrans; [|apply IH]. apply (IHc _ (allocate _)).
Qed.

Lemma resume_env i st : env (resume i st) = env st.
Proof.
  unfold resume. destruct (waiting st !! _) as [[task [id k|id k]]|];
    by rewrite ?exec_env.
Qed.

Lemma resume_sent_kept i st r : sent st = Some r → sent (resume i st) = Some r.
Proof.
  intros Hsent. unfold resume.
  destruct (waiting st !! _) as [[task [id k|id k]]|]; [| |done];
    by apply exec_sent_kept.
Qed.

Lemma resume_effects i st : effects st `prefix_of` effects (resume i st).
Proof.
  unfold resume.
  destruct (waiting st !! _) as [[task [id k|id k]]|]; [| |done];
    apply (exec_effects _ _ (unwait _ st)).
Qed.

Lemma resume_settled i st : settled st `prefix_of` settled (resume i st).
Proof.
  unfold resume.
  destruct (waiting st !! _) as [[task [id k|id k]]|]; [| |done];
    apply (exec_settled _ _ (unwait _ st)).
Qed.

Lemma drain_env sched st : env (drain sched st) = env st.
Proof.
  revert st. induction sched as [|i sched IH]; intros st; [done|].
  simpl. by rewrite IH, resume_env.
Qed.

Lemma drain_sent_kept sched st r :
  sent st = Some r → sent (drain sched st) = Some r.
Proof.
  revert st. induction sched as [|i sched IH]; intros st Hsent; [done|].
  simpl. by apply IH, resume_sent_kept.
Qed.

Lemma drain_effects sched st : effects st `prefix_of` effects (drain sched st).
Proof.
  revert st. induction sched as [|i sched IH]; intros st; [done|].
  simpl. etrans; [apply resume_effects|apply IH].
Qed.

Lemma drain_settled sched st : settled st `prefix_of` settled (drain sched st).
Proof.
  revert st. induction sched as [|i sched IH]; intros st; [done|].
  simpl. etrans; [apply resume_settled|apply IH].
Qed.

(** With no read pending nothing is left to run. *)
Lemma drain_idle sched st : waiting st = [] → drain sched st = st.
Proof.
  intros Hidle. induction sched as [|i sched IH]; [done|].
  simpl. unfold resume at 1. rewrite Hidle. simpl. exact IH.
Qed.

(** No route writes to the stores. *)
Lemma serve_env w handler sched : env (serve w handler sched) = w.
Proof. unfold serve. by rewrite drain_env, exec_env. Qed.

End Frame.

(** ** The bucket list route *)

Lemma projectData_unbound k :
  identifier (["req"; "res"; "pid"] ++ module_scope) "projectData" k
  = Throw (ReferenceError "projectData").
Proof. reflexivity. Qed.

(** C9.  GET /v1/bucket/list never answers with the bucket list.  Without
    [pid] the handler answers NotFound and goes on: it calls the
    permission check, reaches the catch branch, and the answer attempted
    there fails because one was sent.  With [pid] the read of
    [projectData], which nothing binds, throws; the catch branch answers
    InternalServerError with the fields of that error. *)
Theorem get_list_never_succeeds (w : world) (req : request) (sched : list nat) :
  let st := serve w (get_list req) sched in
  (∀ b, sent st ≠ Some (OK, b))
  ∧ match query req !! "pid" with
    | None =>
        sent st = Some (NotFound, Message "Not Found")
        ∧ (1, Rejected (InvalidArgument "documentPath")) ∈ settled st
        ∧ (0, Rejected HeadersSent) ∈ settled st
    | Some _ =>
        sent st = Some (InternalServerError,
                        ErrorFields (ReferenceError "projectData"))
        ∧ EvLog "GET -> bucket/listing: " ∈ effects st
    end.
Proof.
  cbv zeta. unfold serve, get_list.
  destruct (query req !! "pid") as [pid|].
  - set (st0 := exec 0 _ (start w)).
    assert (sent st0 = Some (InternalServerError,
                             ErrorFields (ReferenceError "projectData"))
            ∧ EvLog "GET -> bucket/listing: " ∈ effects st0) as [Hsent Hlog].
    { subst st0. unfold checkProjectPerm, firestore_doc.
      destruct (document_ref (Some pid)); cbn; rewrite projectData_unbound;
        cbn; (split; [done|set_solver]). }
    rewrite (drain_sent_kept _ _ _ Hsent). repeat split; [done|].
    eapply elem_of_prefix; [exact Hlog|apply drain_effects].
  - cbn. rewrite projectData_unbound. cbn.
    rewrite drain_idle by done. cbn. repeat split; [done|set_solver..].
Qed.

(** ** The routes that only read their parameters *)

(** A handler that destructures its parameters and returns. *)
Lemma serve_destructure_only w source sched :
  let st := serve w (destructure source (λ _, Ret JUndefined)) sched in
  sent st = None ∧ effects st = [] ∧ waiting st = [] ∧ env st = w.
Proof.
  cbv zeta. unfold serve.
  destruct source; cbn; by rewrite drain_idle.
Qed.

Lemma serve_file_route op w req sched :
  let st := serve w (file_route op req) sched in
  sent st = None ∧ effects st = [] ∧ waiting st = [] ∧ env st = w.
Proof. destruct op; apply serve_destructure_only. Qed.

Lemma serve_submit_route kind w req sched :
  let st := serve w (submit_route kind req) sched in
  sent st = None ∧ effects st = [] ∧ waiting st = [] ∧ env st = w.
Proof. destruct kind; apply serve_destructure_only. Qed.

Lemma serve_job_route r w sched :
  let st := serve w (job_route r) sched in
  sent st = None ∧ effects st = [] ∧ waiting st = [] ∧ env st = w.
Proof.
  destruct r as [kind req|req]; [apply serve_submit_route|].
  cbv zeta. unfold serve. cbn. by rewrite drain_idle.
Qed.

(** C5.  The handlers of PUT /zip, /unzip and /download-job have no
    body beyond reading their parameters: a request with every parameter
    present is answered with nothing, so with no job id, and nothing is
    read or queued. *)
Theorem submit_returns_no_job_id :
  let zip :=
    put_zip (Sample.put "alice" [("pid", "p1"); ("bid", "b1");
                                 ("src", "a.txt"); ("des", "a.zip")]) in
  let unzip :=
    put_unzip (Sample.put "alice" [("pid", "p1"); ("bid", "b1");
                                   ("src", "a.zip"); ("des", "sub")]) in
  let download :=
    put_download_job (Sample.put "alice" [("pid", "p1"); ("bid", "b1");
                                          ("url", "https://example.org/x");
                                          ("des", "sub")]) in
  map (λ handler, sent (serve Sample.w handler [])) [zip; unzip; download]
  = [None; None; None]
  ∧ map (λ handler, effects (serve Sample.w handler [])) [zip; unzip; download]
    = [[]; []; []]
  ∧ map (λ handler, settled (serve Sample.w handler [])) [zip; unzip; download]
    = [[(0, Fulfilled JUndefined)]; [(0, Fulfilled JUndefined)];
       [(0, Fulfilled JUndefined)]].
Proof. by repeat split. Qed.

(** C6.  The handlers of PUT /mkdir, /mv, /cp and /rm have no body
    beyond reading their parameters: a request is answered with nothing,
    neither success nor failure, and the disk is not touched. *)
Theorem file_operation_returns_no_result :
  let req := Sample.put "alice" [("pid", "p1"); ("bid", "b1"); ("dir", "new");
                                 ("d", "/"); ("src", "a.txt");
                                 ("des", "b.txt")] in
  map (λ op, sent (serve Sample.w (file_route op req) [])) [Mkdir; Mv; Cp; Rm]
  = [None; None; None; None]
  ∧ map (λ op, effects (serve Sample.w (file_route op req) []))
        [Mkdir; Mv; Cp; Rm]
    = [[]; []; []; []]
  ∧ map (λ op, env (serve Sample.w (file_route op req) [])) [Mkdir; Mv; Cp; Rm]
    = [Sample.w; Sample.w; Sample.w; Sample.w].
Proof. by repeat split. Qed.

(** C7.  Two rm requests in a row for a file that exists are both
    answered with nothing, neither Succeeded nor NotFound, and the file is
    still there afterwards. *)
Theorem remove_twice_answers_nothing :
  let rm := put_rm (Sample.put "alice" [("pid", "p1"); ("bid", "b1");
                                        ("d", "a.txt")]) in
  session Sample.w [(rm, []); (rm, [])] = (Sample.w, [None; None])
  ∧ statSync (fst (session Sample.w [(rm, []); (rm, [])]))
             "/srv/buckets/b1/a.txt" = inr IsFile.
Proof. by split. Qed.

(** Whatever the request and the disk, two calls of the rm route change
    nothing and answer nothing. *)
Lemma remove_twice_changes_nothing
    (w : world) (req : request) (first second : list nat) :
  session w [(put_rm req, first); (put_rm req, second)] = (w, [None; None]).
Proof.
  pose proof (serve_file_route Rm w req first) as (Hsent1 & _ & _ & Henv1).
  pose proof (serve_file_route Rm w req second) as (Hsent2 & _ & _ & Henv2).
  simpl in *. by rewrite Henv1, Hsent1, Henv2, Hsent2.
Qed.

(** After a zip request with every parameter present, the jobs route
    answers with nothing: the routes keep no record of a job. *)
Example zip_then_jobs :
  session Sample.w
    [(job_route (Submit Zip (Sample.put "alice" [("pid", "p1"); ("bid", "b1");
                                                  ("src", "a.txt");
                                                  ("des", "a.zip")])), []);
     (job_route (ListJobs (Sample.ask "alice" [("pid", "p1")])), [])]
  = (Sample.w, [None; None]).
Proof. reflexivity. Qed.

(** Whatever sequence of zip, unzip, download-job and jobs requests is
    served, none is answered and the stores stay as they were. *)
Lemma job_routes_keep_no_record
    (w : world) (rs : list (job_request * list nat)) :
  session w (map (λ r, (job_route r.1, r.2)) rs) = (w, map (λ _, None) rs).
Proof.
  revert w. induction rs as [|[r sched] rs IH]; intros w; [done|].
  simpl. destruct (serve_job_route r w sched) as (-> & _ & _ & ->).
  by rewrite IH.
Qed.

(** ** The job manager of the spec *)

Module JobFacts.
Import Jobs.














End JobFacts.


(** A job that is picked up, succeeds and is then cancelled, restarted
    over and started again stays Succeeded; a job that waits stays
    Queued. *)
Example job_run :
  let m := Jobs.run Jobs.empty
             [Jobs.Submit Zip "b1" "alice"; Jobs.Submit Unzip "b1" "bob";
              Jobs.Start 0; Jobs.Finish 0 true; Jobs.Cancel 0; Jobs.ProcessRestart;
              Jobs.Start 0; Jobs.Evict 1] in
  Jobs.state <$> Jobs.status m 0 = Some Jobs.Succeeded
  ∧ Jobs.state <$> Jobs.status m 1 = Some Jobs.Queued
  ∧ Jobs.status m 2 = None.
Proof. by repeat split. Qed.

(** ** The permission check and the routes that call it *)

Ltac resume_next :=
  unfold resume; cbn; rewrite ?Nat.min_0_r; cbn.

(** C1.  The permission check is called without [await]: what the
    handler tests is a promise, which is truthy.  For mallory, who is
    neither the owner nor a collaborator of project p1, the check itself
    settles to [false] and tries to answer Forbidden, but the listing and
    the metadata handlers go on to read the bucket: when the bucket read
    completes first mallory is answered OK with the content, and when the
    project read completes first the disk is read all the same. *)
Theorem permission_check_not_awaited :
  let listing :=
    get_root Sample.site
      (Sample.ask "mallory" [("pid", "p1"); ("bid", "b1"); ("d", "sub")]) in
  let metadata :=
    get_metadata Sample.site
      (Sample.ask "mallory" [("pid", "p1"); ("bid", "b1"); ("f", "a.txt")]) in
  denied Sample.w "p1" "mallory"
  ∧ sent (serve Sample.w listing Sample.bucket_first)
    = Some (OK, Listing [] [])
  ∧ sent (serve Sample.w metadata Sample.bucket_first)
    = Some (OK, Stat IsFile)
  ∧ effects (serve Sample.w listing Sample.project_first)
    = [EvGet "projects" "p1"; EvGet "buckets" "b1";
       EvSend Forbidden (Message "Accessing to project [p1] does not allow");
       EvReaddir "/srv/buckets/b1/sub"]
  ∧ effects (serve Sample.w metadata Sample.project_first)
    = [EvGet "projects" "p1"; EvGet "buckets" "b1";
       EvSend Forbidden (Message "Accessing to project [p1] does not allow");
       EvStat "/srv/buckets/b1/a.txt"]
  ∧ settled (serve Sample.w listing Sample.project_first)
    = [(1, Fulfilled (JBool false)); (0, Rejected HeadersSent)].
Proof.
  cbv zeta. split.
  - exists Sample.p1. repeat split; [done|].
    intros Hin%list_elem_of_singleton. discriminate.
  - by repeat split.
Qed.

(** C3.  The listing stats each entry by its bare name, which the disk
    resolves from the working directory of the process and not from the
    directory that was read.  Bucket b1 holds the file [a.txt] and the
    directory [sub]; with a directory [a.txt] and a file [sub] in the
    working directory the owner is told the opposite, and from a working
    directory without these names the request fails. *)
Theorem listing_stats_bare_names :
  let listing :=
    get_root Sample.site
      (Sample.ask "alice" [("pid", "p1"); ("bid", "b1"); ("d", "/")]) in
  readdirSync Sample.w "/srv/buckets/b1/" = inr ["a.txt"; "sub"]
  ∧ statSync Sample.w "/srv/buckets/b1/a.txt" = inr IsFile
  ∧ statSync Sample.w "/srv/buckets/b1/sub" = inr IsDirectory
  ∧ effects (serve Sample.w listing Sample.bucket_first)
    = [EvGet "projects" "p1"; EvGet "buckets" "b1";
       EvReaddir "/srv/buckets/b1/"; EvStat "a.txt"; EvStat "sub";
       EvSend OK (Listing ["sub"] ["a.txt"])]
  ∧ sent (serve Sample.w listing Sample.bucket_first)
    = Some (OK, Listing ["sub"] ["a.txt"])
  ∧ sent (serve Sample.elsewhere listing Sample.bucket_first)
    = Some (InternalServerError, Message "Internal Server Error").
Proof. by repeat split. Qed.

(** C4, as the spec has it, fails.  Mallory, who is not a member of
    project p1, names the private bucket b2 and then a bucket that does
    not exist.  When the bucket read completes first the two answers
    differ, and the first names the private bucket; when the project read
    completes first both answers are Forbidden, not NotFound, and name the
    project. *)
Lemma private_and_missing_differ :
  let private :=
    get_root Sample.site
      (Sample.ask "mallory" [("pid", "p1"); ("bid", "b2"); ("d", "/")]) in
  let missing :=
    get_root Sample.site
      (Sample.ask "mallory" [("pid", "p1"); ("bid", "ghost"); ("d", "/")]) in
  sent (serve Sample.w private Sample.bucket_first)
  = Some (NotFound, Message "Bucket [b2] is not public")
  ∧ sent (serve Sample.w missing Sample.bucket_first)
    = Some (InternalServerError, Message "Internal Server Error")
  ∧ sent (serve Sample.w private Sample.project_first)
    = Some (Forbidden, Message "Accessing to project [p1] does not allow")
  ∧ sent (serve Sample.w missing Sample.project_first)
    = Some (Forbidden, Message "Accessing to project [p1] does not allow").
Proof. by repeat split. Qed.

(** ** Document references *)

Lemma keys_ok_lookup {A} (docs : gmap string A) id x :
  keys_ok docs = true → docs !! id = Some x →
  document_ref (Some (QString id)) = inr id.
Proof.
  unfold keys_ok. intros Hall Hid.
  rewrite forallb_forall in Hall. specialize (Hall id).
  destruct (document_ref (Some (QString id))) as [e|key].
  - enough (false = true) by done. apply Hall.
    apply in_map_iff. exists (id, x). split; [done|].
    by apply list_elem_of_In, elem_of_map_to_list.
  - f_equal. apply String.eqb_eq, Hall.
    apply in_map_iff. exists (id, x). split; [done|].
    by apply list_elem_of_In, elem_of_map_to_list.
Qed.

(** A project or a bucket that has a document is named by its own id. *)
Lemma project_key w pid pr :
  projects w !! pid = Some pr → document_ref (Some (QString pid)) = inr pid.
Proof. apply keys_ok_lookup, projects_ok. Qed.

Lemma bucket_key w bid b :
  bucketDocs w !! bid = Some b → document_ref (Some (QString bid)) = inr bid.
Proof. apply keys_ok_lookup, bucketDocs_ok. Qed.

Lemma document_ref_string id key :
  document_ref (Some id) = inr key → ∃ s, id = QString s.
Proof. destruct id as [s| |]; [by exists s|done..]. Qed.

Example document_ref_misc :
  map (λ id, document_ref (Some (QString id)))
      ["p1"; "p1/"; "/p1"; "p1/x"; "p1/x/y"; "/"; "p1//x"; ""]
  = [inr "p1"; inr "p1"; inr "p1";
     inl (InvalidArgument "documentPath must point to a document");
     inr "p1/x/y";
     inl (InvalidArgument "documentPath must point to a document");
     inl (InvalidArgument "documentPath: Paths must not contain //");
     inl (InvalidArgument "documentPath")]
  ∧ document_ref (Some (QArray [QString "p1"; QString "p2"]))
    = inl (InvalidArgument "documentPath")
  ∧ document_ref None = inl (InvalidArgument "documentPath").
Proof. by repeat split. Qed.

Example statSync_misc :
  map (statSync Sample.w)
      ["/srv/buckets/b1/a.txt"; "/srv/buckets/b1/a.txt/"; "/srv/buckets/b1/";
       "/srv/buckets/b1/a.txt/.."; "/srv/buckets/b1/sub/.."; "/../etc/passwd";
       "sub"; "a.txt/"; "nothing"; ""]
  = [inr IsFile; inl (ENOTDIR "stat" "/srv/buckets/b1/a.txt/");
     inr IsDirectory; inl (ENOTDIR "stat" "/srv/buckets/b1/a.txt/..");
     inr IsDirectory; inr IsFile; inr IsFile; inr IsDirectory;
     inl (ENOENT "stat" "nothing"); inl (ENOENT "stat" "")].
Proof. reflexivity. Qed.

(** ** The frame of the listing and metadata routes *)

Lemma record_all_sent evs st : sent (record_all evs st) = sent st.
Proof.
  revert st. induction evs as [|ev evs IH]; intros st; [done|].
  simpl. by rewrite IH.
Qed.

(** Running the filter of the listing route: the stats are issued, then
    the handler goes on with the files or the catch branch with the
    error. *)
Lemma exec_filter_isFile items k handler task st :
  exec task (try_catch (filter_isFile items k) handler) st
  = let st' := record_all (map EvStat (statted (env st) items)) st in
    match files_among (env st) items with
    | inr files => exec task (try_catch (k files) handler) st'
    | inl e => exec task (handler e) st'
    end.
Proof.
  revert k st. induction items as [|f more IH]; intros k st; [done|].
  cbn. destruct (statSync (env st) f) as [e|found]; [done|].
  cbn. rewrite IH. cbn.
  by destruct (files_among (env st) more).
Qed.

(** When [doc(bid)] throws, the catch branch answers at once, whatever
    the permission check does later. *)
Lemma guarded_throws w pid user bid error after handler sched r :
  document_ref bid = inl error →
  (∀ st, sent st = None → sent (exec 0 (handler error) st) = Some r) →
  sent (serve w (guarded pid user bid after handler) sched) = Some r.
Proof.
  intros Hbid Hhandler. unfold serve. apply drain_sent_kept.
  unfold guarded, checkProjectPerm, firestore_doc. rewrite Hbid.
  destruct (document_ref pid); cbn; by apply Hhandler.
Qed.

(** Whatever the two reads give and in whichever order they complete, a
    handler of the shared frame answers what it answers once the bucket
    document is read, unless the permission check answered first, which
    it does only for a user it turns away. *)
Lemma guarded_answer w pid user bid key after handler r i j :
  document_ref (Some bid) = inr key →
  (∀ st, sent st = None → env st = w →
     sent (exec 0 (try_catch (after (bucketDocs w !! key)) handler) st) = Some r) →
  let answer :=
    sent (serve w (guarded (Some pid) user (Some bid) after handler) [i; j]) in
  answer = Some r ∨ (answer = Some (forbidden pid) ∧ turned_away w pid user).
Proof.
  intros Hbid Htail. cbv zeta.
  unfold serve, guarded, checkProjectPerm, firestore_doc, forbidden.
  rewrite Hbid.
  destruct (document_ref (Some pid)) as [e|pkey] eqn:Epid.
  - left. cbn. apply resume_sent_kept. resume_next. by apply Htail.
  - cbn. destruct i as [|i].
    + resume_next.
      destruct (projects w !! pkey) as [pr|] eqn:Hpr; cbn.
      * destruct (ownerId pr =? user) eqn:Howner; cbn.
        { left. resume_next. by apply Htail. }
        unfold includes.
        destruct (decide (user ∈ collaborators pr)) as [Hin|Hout].
        { left. rewrite (bool_decide_eq_true_2 _ Hin). cbn.
          resume_next. by apply Htail. }
        right. rewrite (bool_decide_eq_false_2 _ Hout). cbn. split.
        -- resume_next. by apply exec_sent_kept.
        -- exists pkey. split; [done|]. exists pr. repeat split; [done| |done].
           apply String.eqb_neq in Howner. congruence.
      * left. resume_next. by apply Htail.
    + left. apply resume_sent_kept. resume_next. by apply Htail.
Qed.

(** For a user the permission check turns away the order decides: the
    check answers when the project read completes first, the handler when
    the bucket read does. *)
Lemma guarded_order w pid user bid key after handler r j :
  document_ref (Some bid) = inr key → turned_away w pid user →
  (∀ st, sent st = None → env st = w →
     sent (exec 0 (try_catch (after (bucketDocs w !! key)) handler) st) = Some r) →
  sent (serve w (guarded (Some pid) user (Some bid) after handler) [0; j])
  = Some (forbidden pid)
  ∧ ∀ i, sent (serve w (guarded (Some pid) user (Some bid) after handler)
                 [S i; j]) = Some r.
Proof.
  intros Hbid (pkey & Hpid & pr & Hpr & Howner & Hcollab) Htail.
  unfold serve, guarded, checkProjectPerm, firestore_doc, forbidden.
  rewrite Hbid, Hpid. cbn. split.
  - resume_next. rewrite Hpr. cbn.
    destruct (String.eqb_spec (ownerId pr) user) as [Heq|_]; [done|].
    cbn. unfold includes. rewrite (bool_decide_eq_false_2 _ Hcollab). cbn.
    resume_next. by apply exec_sent_kept.
  - intros i. apply resume_sent_kept. resume_next. by apply Htail.
Qed.


(** The bucket read is issued before any read completes. *)
Lemma guarded_bucket_read w pid user bid key after handler sched :
  document_ref (Some bid) = inr key →
  EvGet "buckets" key
  ∈ effects (serve w (guarded pid user (Some bid) after handler) sched).
Proof.
  intros Hbid. eapply elem_of_prefix; [|apply drain_effects].
  unfold guarded, checkProjectPerm, firestore_doc. rewrite Hbid.
  destruct (document_ref pid); cbn; set_solver.
Qed.

Lemma root_tail site w (bid d : qvalue) key st :
  document_ref (Some bid) = inr key → sent st = None → env st = w →
  sent (exec 0
          (try_catch
             (let* public := property "isPublic" isPublic (bucketDocs w !! key) in
              if negb public then
                Status NotFound ;;
                send (Message ("Bucket [" +:+ text (Some bid) +:+ "] is not public")) ;;
                Ret JUndefined
              else
                let* currentDir :=
                  path_join [Some (QString site); Some bid; Some d] in
                let* items := readdir currentDir in
                let* files := filter_isFile items in
                let folders := filter (λ f, negb (includes files f)) items in
                Status OK ;; send (Listing files folders) ;; Ret JUndefined)
             (λ error,
                Status InternalServerError ;;
                send (Message "Internal Server Error") ;;
                Log "GET -> bucket /: " ;;
                Ret JUndefined))
          st)
  = Some (root_answer site w bid d).
Proof.
  intros Hbid Hsent Henv. unfold root_answer. rewrite Hbid.
  destruct (document_ref_string bid key Hbid) as [sbid ->].
  destruct (bucketDocs w !! key) as [b|]; cbn; [|by rewrite Hsent].
  destruct (isPublic b); cbn; [|by rewrite Hsent].
  destruct d as [sd| |]; cbn; [|by rewrite Hsent..].
  rewrite Henv. unfold listing_of, currentDir.
  destruct (readdirSync w _) as [e|items]; cbn; [by rewrite Hsent|].
  rewrite exec_filter_isFile. cbn. rewrite Henv.
  destruct (files_among w items) as [e|files]; cbn;
    by rewrite record_all_sent; cbn; rewrite Hsent.
Qed.

Lemma stat_tail site w (bid f : qvalue) key st :
  document_ref (Some bid) = inr key → sent st = None → env st = w →
  sent (exec 0
          (try_catch
             (let* public := property "isPublic" isPublic (bucketDocs w !! key) in
              if negb public then
                Status NotFound ;; send (Message "Not Found") ;; Ret JUndefined
              else
                let* currentDir :=
                  path_join [Some (QString site); Some bid; Some f] in
                let* st := stat currentDir in
                Status OK ;; send (Stat st) ;; Ret JUndefined)
             (λ error,
                Status InternalServerError ;;
                send (ErrorFields error) ;;
                Log "GET -> bucket/metadata: " ;;
                Ret JUndefined))
          st)
  = Some (stat_answer site w bid f).
Proof.
  intros Hbid Hsent Henv. unfold stat_answer. rewrite Hbid.
  destruct (document_ref_string bid key Hbid) as [sbid ->].
  destruct (bucketDocs w !! key) as [b|]; cbn; [|by rewrite Hsent].
  destruct (isPublic b); cbn; [|by rewrite Hsent].
  destruct f as [sf| |]; cbn; [|by rewrite Hsent..].
  rewrite Henv. unfold currentDir.
  by destruct (statSync w _); cbn; rewrite Hsent.
Qed.

(** The two handlers are instances of the shared frame. *)
Lemma get_root_guarded site req (pid bid d : qvalue) :
  query req !! "pid" = Some pid → query req !! "bid" = Some bid →
  query req !! "d" = Some d →
  ∃ after handler,
    get_root site req = guarded (Some pid) (uid req) (Some bid) after handler
    ∧ (∀ key w st, document_ref (Some bid) = inr key →
         sent st = None → env st = w →
         sent (exec 0 (try_catch (after (bucketDocs w !! key)) handler) st)
         = Some (root_answer site w bid d))
    ∧ (∀ error st, sent st = None →
         sent (exec 0 (handler error) st) = Some failed)
    ∧ ∀ (sbid sd : string) b st,
        bid = QString sbid → d = QString sd → isPublic b = true →
        EvReaddir (currentDir site sbid sd)
        ∈ effects (exec 0 (try_catch (after (Some b)) handler) st).
Proof.
  intros Hpid Hbid Hd. eexists _, _. split; [|split; [|split]].
  - unfold get_root. rewrite Hpid, Hbid, Hd. reflexivity.
  - intros key w st Hkey Hsent Henv. by apply root_tail.
  - intros error st Hsent. cbn. by rewrite Hsent.
  - intros sbid sd b st -> -> Hpublic. cbn. rewrite Hpublic. cbn.
    eapply elem_of_prefix; [|apply exec_effects].
    unfold record, currentDir. simpl.
    apply elem_of_app. right. apply list_elem_of_here.
Qed.

Lemma get_metadata_guarded site req (pid bid f : qvalue) :
  query req !! "pid" = Some pid → query req !! "bid" = Some bid →
  query req !! "f" = Some f →
  ∃ after handler,
    get_metadata site req = guarded (Some pid) (uid req) (Some bid) after handler
    ∧ (∀ key w st, document_ref (Some bid) = inr key →
         sent st = None → env st = w →
         sent (exec 0 (try_catch (after (bucketDocs w !! key)) handler) st)
         = Some (stat_answer site w bid f))
    ∧ (∀ error st, sent st = None →
         sent (exec 0 (handler error) st)
         = Some (InternalServerError, ErrorFields error))
    ∧ ∀ (sbid sf : string) b st,
        bid = QString sbid → f = QString sf → isPublic b = true →
        EvStat (currentDir site sbid sf)
        ∈ effects (exec 0 (try_catch (after (Some b)) handler) st).
Proof.
  intros Hpid Hbid Hf. eexists _, _. split; [|split; [|split]].
  - unfold get_metadata. rewrite Hpid, Hbid, Hf. reflexivity.
  - intros key w st Hkey Hsent Henv. by apply stat_tail.
  - intros error st Hsent. cbn. by rewrite Hsent.
  - intros sbid sf b st -> -> Hpublic. cbn. rewrite Hpublic. cbn.
    eapply elem_of_prefix; [|apply exec_effects].
    unfold record, currentDir. simpl.
    apply elem_of_app. right. apply list_elem_of_here.
Qed.

(** The answer of the two routes to a request that has its three
    parameters: what the handler answers behind the bucket read, or the
    Forbidden of the permission check. *)
Lemma get_root_answer site w req (pid bid d : qvalue) i j :
  query req !! "pid" = Some pid → query req !! "bid" = Some bid →
  query req !! "d" = Some d →
  let answer := sent (serve w (get_root site req) [i; j]) in
  answer = Some (root_answer site w bid d)
  ∨ (answer = Some (forbidden pid) ∧ turned_away w pid (uid req)).
Proof.
  intros Hpid Hbid Hd. cbv zeta.
  destruct (get_root_guarded site req pid bid d Hpid Hbid Hd)
    as (after & handler & -> & Htail & Hcatch & _).
  destruct (document_ref (Some bid)) as [error|key] eqn:Hkey.
  - left.
    rewrite (guarded_throws w (Some pid) (uid req) (Some bid) error after
               handler [i; j] failed Hkey (Hcatch error)).
    unfold root_answer. by rewrite Hkey.
  - apply (guarded_answer w pid (uid req) bid key); [done|].
    intros st Hsent Henv. by apply Htail.
Qed.

Lemma get_metadata_answer site w req (pid bid f : qvalue) i j :
  query req !! "pid" = Some pid → query req !! "bid" = Some bid →
  query req !! "f" = Some f →
  let answer := sent (serve w (get_metadata site req) [i; j]) in
  answer = Some (stat_answer site w bid f)
  ∨ (answer = Some (forbidden pid) ∧ turned_away w pid (uid req)).
Proof.
  intros Hpid Hbid Hf. cbv zeta.
  destruct (get_metadata_guarded site req pid bid f Hpid Hbid Hf)
    as (after & handler & -> & Htail & Hcatch & _).
  destruct (document_ref (Some bid)) as [error|key] eqn:Hkey.
  - left.
    rewrite (guarded_throws w (Some pid) (uid req) (Some bid) error after
               handler [i; j] (InternalServerError, ErrorFields error)
               Hkey (Hcatch error)).
    unfold stat_answer. by rewrite Hkey.
  - apply (guarded_answer w pid (uid req) bid key); [done|].
    intros st Hsent Henv. by apply Htail.
Qed.

(** The permission check on its own. *)
Lemma check_denies w pid user pr i :
  pid ≠ "" → projects w !! pid = Some pr → ¬ member user pr →
  let st := serve w (checkProjectPerm (Some (QString pid)) user) [i] in
  sent st = Some (Forbidden,
                  Message ("Accessing to project [" +:+ pid +:+ "] does not allow"))
  ∧ settled st = [(0, Fulfilled (JBool false))].
Proof.
  intros _ Hpr Hout. cbv zeta.
  unfold serve, checkProjectPerm, firestore_doc.
  rewrite (project_key w pid pr Hpr). cbn.
  resume_next. rewrite Hpr. cbn.
  destruct (String.eqb_spec (ownerId pr) user) as [<-|Howner].
  { exfalso. apply Hout. by left. }
  cbn. unfold includes. rewrite bool_decide_eq_false_2; [done|].
  intros Hin. apply Hout. by right.
Qed.

Lemma check_allows w pid user pr i :
  pid ≠ "" → projects w !! pid = Some pr → member user pr →
  let st := serve w (checkProjectPerm (Some (QString pid)) user) [i] in
  sent st = None ∧ settled st = [(0, Fulfilled (JBool true))].
Proof.
  intros _ Hpr Hin. cbv zeta.
  unfold serve, checkProjectPerm, firestore_doc.
  rewrite (project_key w pid pr Hpr). cbn.
  resume_next. rewrite Hpr. cbn.
  destruct (String.eqb_spec (ownerId pr) user) as [<-|Howner]; [done|].
  cbn. unfold includes. rewrite bool_decide_eq_true_2; [done|].
  destruct Hin as [->|Hin]; done.
Qed.

Lemma member_not_denied w pid user pr :
  projects w !! pid = Some pr → member user pr → ¬ denied w pid user.
Proof.
  intros Hpr Hin (pr' & Hpr' & Howner & Hcollab).
  rewrite Hpr in Hpr'. injection Hpr' as <-.
  destruct Hin as [->|Hin]; done.
Qed.

(** The owner and the collaborators of the project [pid] names are not
    turned away. *)
Lemma member_not_turned_away w (pid : qvalue) key user pr :
  document_ref (Some pid) = inr key → projects w !! key = Some pr →
  member user pr → ¬ turned_away w pid user.
Proof.
  intros Hkey Hpr Hin (key' & Hkey' & Hdenied).
  rewrite Hkey in Hkey'. injection Hkey' as <-.
  by apply (member_not_denied w key user pr).
Qed.

Lemma member_of_project w (pid : string) user pr :
  projects w !! pid = Some pr → member user pr →
  ¬ turned_away w (QString pid) user.
Proof.
  intros Hpr. apply (member_not_turned_away w pid pid); [|done].
  by apply (project_key w pid pr).
Qed.

(** C4 (amended).  For a user the permission check lets through, a
    request that names an existing private bucket is answered NotFound,
    with the message "Bucket [bid] is not public" on the listing route
    and "Not Found" on the metadata route.  The permission check, for a
    user who is neither the owner nor a collaborator of the project,
    answers Forbidden with a message that names the project. *)
Theorem private_bucket_answer
    (site : string) (w : world) (req : request) (pid bid : string)
    (b : bucket) (pr : project) (outsider : string) (i j : nat) :
  query req !! "pid" = Some (QString pid) →
  query req !! "bid" = Some (QString bid) →
  pid ≠ "" → bid ≠ "" →
  bucketDocs w !! bid = Some b → isPublic b = false →
  projects w !! pid = Some pr →
  member (uid req) pr → ¬ member outsider pr →
  (∀ d, query req !! "d" = Some d →
     sent (serve w (get_root site req) [i; j])
     = Some (NotFound, Message ("Bucket [" +:+ bid +:+ "] is not public")))
  ∧ (∀ f, query req !! "f" = Some f →
     sent (serve w (get_metadata site req) [i; j])
     = Some (NotFound, Message "Not Found"))
  ∧ sent (serve w (checkProjectPerm (Some (QString pid)) outsider) [i])
    = Some (Forbidden,
            Message ("Accessing to project [" +:+ pid +:+ "] does not allow")).
Proof.
  intros Hpid Hbid Hp Hne Hb Hprivate Hpr Hin Hout.
  pose proof (member_of_project w pid (uid req) pr Hpr Hin) as Hallowed.
  pose proof (bucket_key w bid b Hb) as Hkey.
  repeat split.
  - intros d Hd.
    destruct (get_root_answer site w req pid bid d i j Hpid Hbid Hd)
      as [H|[_ H]]; [|done].
    rewrite H. unfold root_answer. by rewrite Hkey, Hb, Hprivate.
  - intros f Hf.
    destruct (get_metadata_answer site w req pid bid f i j Hpid Hbid Hf)
      as [H|[_ H]]; [|done].
    rewrite H. unfold stat_answer. by rewrite Hkey, Hb, Hprivate.
  - by destruct (check_denies w pid outsider pr i) as [H _].
Qed.

Lemma private_bucket_answer_witness :
  let req := Sample.ask "alice" [("pid", "p1"); ("bid", "b2"); ("d", "/");
                                 ("f", "secret")] in
  (∀ d, query req !! "d" = Some d →
     sent (serve Sample.w (get_root Sample.site req) Sample.bucket_first)
     = Some (NotFound, Message ("Bucket [" +:+ "b2" +:+ "] is not public")))
  ∧ (∀ f, query req !! "f" = Some f →
     sent (serve Sample.w (get_metadata Sample.site req) Sample.bucket_first)
     = Some (NotFound, Message "Not Found"))
  ∧ sent (serve Sample.w (checkProjectPerm (Some (QString "p1")) "mallory") [1])
    = Some (Forbidden,
            Message ("Accessing to project [" +:+ "p1" +:+ "] does not allow")).
Proof.
  cbv zeta.
  apply (private_bucket_answer Sample.site Sample.w
           (Sample.ask "alice" [("pid", "p1"); ("bid", "b2"); ("d", "/");
                                ("f", "secret")])
           "p1" "b2" {| isPublic := false |} Sample.p1 "mallory" 1 0);
    try reflexivity; try discriminate.
  - by left.
  - intros [Howner|Hcollab%list_elem_of_singleton]; discriminate.
Defined.

(** ** The path handed to the disk *)




Example currentDir_sample :
  currentDir "/srv/buckets" "b1" "sub/../a.txt" = "/srv/buckets/b1/a.txt".
Proof. reflexivity. Qed.

(** ** The extension of a file name *)

Module ExtnameFacts.
Import Path.

Lemma with_preDot_same st : with_preDot st (preDotState st) = st.
Proof. by destruct st. Qed.

(** Over the characters of the extension nothing changes once the end
    is known. *)
Lemma ext_loop_plain l rest i st :
  forallb plain_char l = true → startDot st = (-1)%Z → end_ st ≠ (-1)%Z →
  ext_loop (l ++ rest) i st = ext_loop rest (i - Z.of_nat (length l)) st.
Proof.
  revert i. induction l as [|c l IH]; intros i Hl Hdot Hend.
  - simpl. f_equal. lia.
  - simpl in Hl. apply andb_prop in Hl as [Hc Hl].
    apply andb_prop in Hc as [Hsep Hnd].
    apply negb_true_iff in Hsep, Hnd.
    simpl. unfold ext_step. rewrite Hsep, Hnd.
    apply Z.eqb_neq in Hend. rewrite Hend. rewrite Hdot. simpl.
    rewrite IH by (done || by apply Z.eqb_neq).
    f_equal. lia.
Qed.

Lemma ext_loop_base l i st :
  forallb (λ c, negb (is_sep c)) l = true → startDot st ≠ (-1)%Z → end_ st ≠ (-1)%Z →
  ∃ v, ext_loop l i st = with_preDot st v
       ∧ match l with
         | [] => v = preDotState st
         | _ => v = 1%Z ∨ v = (-1)%Z
         end.
Proof.
  revert i st. induction l as [|c l IH]; intros i st Hl Hdot Hend.
  - exists (preDotState st). by rewrite with_preDot_same.
  - simpl in Hl. apply andb_prop in Hl as [Hsep Hl].
    apply negb_true_iff in Hsep.
    assert (∃ v', (v' = 1%Z ∨ v' = (-1)%Z)
                  ∧ ext_step i c st = inr (with_preDot st v')) as (v' & Hv' & Hstep).
    { unfold ext_step. rewrite Hsep.
      apply Z.eqb_neq in Hend, Hdot. rewrite Hend, Hdot. simpl.
      destruct (Ascii.eqb c ".").
      - destruct (Z.eqb_spec (preDotState st) 1) as [E|E]; simpl.
        + exists 1%Z. split; [by left|]. by rewrite <- E, with_preDot_same.
        + exists 1%Z. by split; [left|].
      - exists (-1)%Z. by split; [right|]. }
    simpl. rewrite Hstep.
    destruct (IH (i - 1)%Z (with_preDot st v') Hl Hdot Hend) as (v & Hloop & Hv).
    exists v. split; [by rewrite Hloop|].
    destruct l; [by subst v|done].
Qed.

Lemma substring_skip a b :
  substring (String.length a) (String.length b) (a +:+ b) = b.
Proof.
  induction a as [|c a IH]; simpl.
  - induction b as [|c b IHb]; [done|]. simpl. 
    destruct b; simpl in *; by rewrite ?IHb.
  - exact IH.
Qed.

Lemma list_ascii_app a b :
  list_ascii_of_string (a +:+ b) = list_ascii_of_string a ++ list_ascii_of_string b.
Proof. induction a as [|c a IH]; [done|]. simpl. by rewrite <- IH. Qed.

Lemma string_length_app a b :
  String.length (a +:+ b) = String.length a + String.length b.
Proof. induction a as [|c a IH]; [done|]. simpl. by rewrite <- IH. Qed.

Lemma length_list_ascii a : length (list_ascii_of_string a) = String.length a.
Proof. induction a as [|c a IH]; [done|]. simpl. by rewrite IH. Qed.

Lemma ext_step_first i c :
  is_sep c = false → Ascii.eqb c "." = false → (0 <= i)%Z →
  ext_step i c ext_scan0
  = inr {| startDot := -1; startPart := 0; end_ := i + 1;
           matchedSlash := false; preDotState := 0 |}.
Proof. intros Hs Hd Hi. unfold ext_step. by rewrite Hs, Hd. Qed.

Lemma ext_step_dot i st :
  startDot st = (-1)%Z → end_ st ≠ (-1)%Z →
  ext_step i "." st
  = inr {| startDot := i; startPart := startPart st; end_ := end_ st;
           matchedSlash := matchedSlash st; preDotState := preDotState st |}.
Proof.
  intros Hdot Hend%Z.eqb_neq. unfold ext_step. simpl.
  by rewrite Hend, Hdot.
Qed.

Lemma ext_loop_dotted (lb le : list ascii) :
  lb ≠ [] → forallb (λ c, negb (is_sep c)) lb = true →
  le ≠ [] → forallb plain_char le = true →
  let n := Z.of_nat (length lb + (1 + length le)) in
  ∃ v, (v = 1%Z ∨ v = (-1)%Z)
       ∧ ext_loop (rev le ++ "."%char :: rev lb) (n - 1) ext_scan0
         = {| startDot := Z.of_nat (length lb); startPart := 0; end_ := n;
              matchedSlash := false; preDotState := v |}.
Proof.
  intros Hlb Hsep Hle Hplain n.
  destruct (rev le) as [|c0 l0] eqn:Erev.
  { apply (f_equal (@rev ascii)) in Erev. by rewrite rev_involutive in Erev. }
  assert (forallb plain_char (c0 :: l0) = true) as Hrev.
  { rewrite <- Erev. apply forallb_forall. intros x Hx%in_rev.
    by eapply forallb_forall in Hplain. }
  assert (length le = S (length l0)) as Hlen.
  { by rewrite <- (rev_involutive le), length_rev, Erev. }
  simpl in Hrev. apply andb_prop in Hrev as [Hc0 Hl0].
  apply andb_prop in Hc0 as [Hs0 Hd0]. apply negb_true_iff in Hs0, Hd0.
  change ((c0 :: l0) ++ "."%char :: rev lb)
    with (c0 :: (l0 ++ "."%char :: rev lb)).
  cbn [ext_loop]. rewrite ext_step_first by (done || lia).
  rewrite ext_loop_plain; [|done|done|simpl; lia].
  cbn [ext_loop]. rewrite ext_step_dot; [|done|simpl; lia].
  cbn [startPart end_ matchedSlash preDotState].
  replace (n - 1 + 1)%Z with n by lia.
  replace (n - 1 - 1 - Z.of_nat (length l0))%Z with (Z.of_nat (length lb))
    by lia.
  set (st := {| startDot := Z.of_nat (length lb); startPart := 0; end_ := n;
                matchedSlash := false; preDotState := 0 |}).
  destruct (ext_loop_base (rev lb) (Z.of_nat (length lb) - 1) st)
    as (v & Hloop & Hv).
  { apply forallb_forall. intros x Hx%in_rev. by eapply forallb_forall in Hsep. }
  { simpl. lia. } { simpl. lia. }
  exists v. split; [|exact Hloop].
  destruct (rev lb) eqn:E; [|done].
  apply (f_equal (@rev ascii)) in E. by rewrite rev_involutive in E.
Qed.

Lemma to_nat_gap a b : Z.to_nat (Z.of_nat (a + S b) - Z.of_nat a) = S b.
Proof. lia. Qed.

Lemma no_sep_forallb s :
  no_sep s = forallb (λ c, negb (is_sep c)) (list_ascii_of_string s).
Proof. induction s as [|c s IH]; [done|]. simpl. by rewrite IH. Qed.

(** The extension of [base.ext] is [.ext]. *)
Lemma extname_dotted base ext :
  base ≠ "" → no_sep base = true → ext ≠ "" → plain ext = true →
  extname (base +:+ "." +:+ ext) = "." +:+ ext.
Proof.
  intros Hbase Hsep Hext Hplain. rewrite no_sep_forallb in Hsep.
  unfold extname.
  rewrite !list_ascii_app, !rev_app_distr, <- app_assoc, !string_length_app.
  destruct (ext_loop_dotted (list_ascii_of_string base) (list_ascii_of_string ext))
    as (v & Hv & Hloop); [by destruct base|done|by destruct ext|done|].
  rewrite !length_list_ascii in Hloop. simpl in Hloop |- *.
  rewrite Hloop. cbn [startDot end_ preDotState startPart].
  assert (String.length ext ≠ 0) as Hlen by (by destruct ext).
  repeat match goal with
         | |- context [(?a =? ?b)%Z] => destruct (Z.eqb_spec a b); try lia
         end; simpl;
    rewrite Nat2Z.id, to_nat_gap;
    apply (substring_skip base ("." +:+ ext)).
Qed.

End ExtnameFacts.

Module NumberFacts.

Lemma to_uint_normal n : Decimal.unorm (N.to_uint n) = N.to_uint n.
Proof.
  rewrite <- (DecimalN.Unsigned.to_of (N.to_uint n)).
  by rewrite DecimalN.Unsigned.of_to.
Qed.

(** The text of a number reads back as the number. *)
Lemma number_text_value n : decimal_value (number_text n) = Some n.
Proof.
  unfold decimal_value, number_text. rewrite NilEmpty.usu. simpl.
  by rewrite DecimalN.Unsigned.of_to.
Qed.

Lemma number_text_not_empty n : number_text n ≠ "".
Proof.
  unfold number_text. pose proof (DecimalFacts.unorm_nonnil (N.to_uint n)) as H.
  rewrite to_uint_normal in H. by destruct (N.to_uint n).
Qed.

(** It has no leading zero: only the text of 0 starts with the digit 0. *)
Lemma number_text_leading n rest :
  number_text n = String "0" rest → rest = "".
Proof.
  unfold number_text. pose proof (to_uint_normal n) as Hnormal.
  destruct (N.to_uint n) as [|d|d|d|d|d|d|d|d|d|d]; simpl; try done.
  intros [= <-]. rewrite DecimalFacts.unorm_D0 in Hnormal.
  destruct (Decimal.nzhead d) eqn:Hhead.
  2-11: rewrite DecimalFacts.unorm_nzhead in Hnormal by (by rewrite Hhead);
        by destruct (DecimalFacts.nzhead_nonzero d d).
  apply DecimalFacts.unorm_0 in Hhead. rewrite Hhead in Hnormal.
  by injection Hnormal as <-.
Qed.

End NumberFacts.

(** ** The stored name of an upload *)

(** C10.  For an original name [base.ext] the stored name is [.ext]
    followed by the time stamp in decimal digits: the digits read back as
    the time stamp, there is at least one, and there is no leading zero.
    Nothing of [base] is in the stored name, so two original names with
    the same extension uploaded at the same instant get the same stored
    name. *)
Theorem filename_drops_base_name (base1 base2 ext : string) (now : N) :
  base1 ≠ "" → base2 ≠ "" → ext ≠ "" →
  Path.no_sep base1 = true → Path.no_sep base2 = true →
  Path.plain ext = true →
  filename (base1 +:+ "." +:+ ext) now = "." +:+ ext +:+ number_text now
  ∧ decimal_value (number_text now) = Some now
  ∧ number_text now ≠ ""
  ∧ (∀ rest, number_text now = String "0" rest → rest = "")
  ∧ filename (base2 +:+ "." +:+ ext) now
    = filename (base1 +:+ "." +:+ ext) now.
Proof.
  intros Hb1 Hb2 Hext Hs1 Hs2 Hplain. unfold filename.
  rewrite !ExtnameFacts.extname_dotted by done.
  split; [done|]. split; [apply NumberFacts.number_text_value|].
  split; [apply NumberFacts.number_text_not_empty|].
  split; [apply NumberFacts.number_text_leading|done].
Qed.

Lemma filename_drops_base_name_witness :
  filename "report.pdf" 1700000000000 = ".pdf1700000000000"
  ∧ decimal_value "1700000000000" = Some 1700000000000%N
  ∧ "1700000000000" ≠ ""
  ∧ (∀ rest, "1700000000000" = String "0" rest → rest = "")
  ∧ filename "invoice.pdf" 1700000000000 = filename "report.pdf" 1700000000000.
Proof.
  exact (filename_drops_base_name "report" "invoice" "pdf" 1700000000000
           ltac:(discriminate) ltac:(discriminate) ltac:(discriminate)
           eq_refl eq_refl eq_refl).
Defined.

Example filename_report :
  filename "report.pdf" 1700000000000 = ".pdf1700000000000"
  ∧ filename "invoice.pdf" 1700000000000 = ".pdf1700000000000".
Proof. by split. Qed.

(** ** Further properties of the permission check and the metadata route *)

(** Whoever asks, the listing handler has issued the bucket read before
    the project read can complete: it does not wait for the permission
    check. *)
Lemma bucket_read_issued_regardless site w req (pid bid d : qvalue) key sched :
  query req !! "pid" = Some pid → query req !! "bid" = Some bid →
  query req !! "d" = Some d → document_ref (Some bid) = inr key →
  EvGet "buckets" key ∈ effects (serve w (get_root site req) sched).
Proof.
  intros Hpid Hbid Hd Hkey.
  destruct (get_root_guarded site req pid bid d Hpid Hbid Hd)
    as (after & handler & -> & _).
  by apply guarded_bucket_read.
Qed.

(** The permission check settles to [true] without answering exactly for
    the owner and the collaborators of the project; for anyone else it
    answers Forbidden and settles to [false]. *)
Theorem checkProjectPerm_decides
    (w : world) (pid user : string) (pr : project) (i : nat) :
  pid ≠ "" → projects w !! pid = Some pr →
  let st := serve w (checkProjectPerm (Some (QString pid)) user) [i] in
  (member user pr →
     sent st = None ∧ settled st = [(0, Fulfilled (JBool true))])
  ∧ (¬ member user pr →
     sent st = Some (Forbidden,
                     Message ("Accessing to project [" +:+ pid
                              +:+ "] does not allow"))
     ∧ settled st = [(0, Fulfilled (JBool false))]).
Proof.
  intros Hpid Hpr. cbv zeta. split; intros Hin.
  - by apply (check_allows w pid user pr).
  - by apply (check_denies w pid user pr).
Qed.

Lemma checkProjectPerm_decides_witness :
  let st := serve Sample.w (checkProjectPerm (Some (QString "p1")) "bob") [0] in
  (member "bob" Sample.p1 →
     sent st = None ∧ settled st = [(0, Fulfilled (JBool true))])
  ∧ (¬ member "bob" Sample.p1 →
     sent st = Some (Forbidden,
                     Message ("Accessing to project [" +:+ "p1"
                              +:+ "] does not allow"))
     ∧ settled st = [(0, Fulfilled (JBool false))]).
Proof.
  apply (checkProjectPerm_decides Sample.w "p1" "bob" Sample.p1 0);
    [discriminate|reflexivity].
Defined.

(** For a member of the project and a public bucket the metadata route
    stats the joined path and answers OK with what it finds; when the
    stat fails it answers InternalServerError with the fields of the
    error. *)
Theorem metadata_answer
    (site : string) (w : world) (req : request) (pid bid f : string)
    (b : bucket) (pr : project) (i j : nat) :
  query req !! "pid" = Some (QString pid) →
  query req !! "bid" = Some (QString bid) →
  query req !! "f" = Some (QString f) → pid ≠ "" → bid ≠ "" →
  bucketDocs w !! bid = Some b → isPublic b = true →
  projects w !! pid = Some pr → member (uid req) pr →
  sent (serve w (get_metadata site req) [i; j])
  = Some (match statSync w (currentDir site bid f) with
          | inr found => (OK, Stat found)
          | inl error => (InternalServerError, ErrorFields error)
          end).
Proof.
  intros Hpid Hbid Hf _ _ Hb Hpublic Hpr Hin.
  destruct (get_metadata_answer site w req pid bid f i j Hpid Hbid Hf)
    as [H|[_ H]].
  - rewrite H. unfold stat_answer.
    by rewrite (bucket_key w bid b Hb), Hb, Hpublic.
  - by destruct (member_of_project w pid (uid req) pr Hpr Hin).
Qed.

Lemma metadata_answer_witness :
  sent (serve Sample.w
          (get_metadata Sample.site
             (Sample.ask "bob" [("pid", "p1"); ("bid", "b1"); ("f", "a.txt")]))
          Sample.project_first)
  = Some (match statSync Sample.w (currentDir Sample.site "b1" "a.txt") with
          | inr found => (OK, Stat found)
          | inl error => (InternalServerError, ErrorFields error)
          end).
Proof.
  apply (metadata_answer Sample.site Sample.w
           (Sample.ask "bob" [("pid", "p1"); ("bid", "b1"); ("f", "a.txt")])
           "p1" "b1" "a.txt" {| isPublic := true |} Sample.p1 0 0);
    try reflexivity; try discriminate.
  right. by apply list_elem_of_singleton.
Defined.

(** ** The answers of the listing and metadata routes in closed form *)

(** Unless the permission check turns the user away (so for the owner
    and the collaborators of the project, and also when [pid] names no
    project document), the listing route answers a request that has its
    three parameters in whichever order the two reads complete:
    InternalServerError when [doc(bid)] throws or the bucket has no
    document, NotFound with the bucket named when it is private, and for
    a public bucket the entries of the joined directory split into files
    and folders, or InternalServerError when [d] is not a string, the
    directory cannot be read or an entry cannot be statted. *)
Theorem listing_answer
    (site : string) (w : world) (req : request) (pid bid d : qvalue)
    (i j : nat) :
  query req !! "pid" = Some pid → query req !! "bid" = Some bid →
  query req !! "d" = Some d →
  ¬ turned_away w pid (uid req) →
  sent (serve w (get_root site req) [i; j]) = Some (root_answer site w bid d).
Proof.
  intros Hpid Hbid Hd Hallowed.
  by destruct (get_root_answer site w req pid bid d i j Hpid Hbid Hd)
    as [H|[_ H]].
Qed.

Lemma listing_answer_witness :
  let listing (bid d : qvalue) :=
    sent (serve Sample.w
            (get_root Sample.site
               {| query := {[ "pid" := QString "p1/"; "bid" := bid; "d" := d ]};
                  body := None; params := ∅; uid := "bob" |})
            Sample.project_first) in
  listing (QString "b1/") (QString "/") = Some (OK, Listing ["sub"] ["a.txt"])
  ∧ listing (QString "b2") (QString "/")
    = Some (NotFound, Message "Bucket [b2] is not public")
  ∧ listing (QString "b1/x") (QString "/") = Some failed
  ∧ listing (QString "b9") (QString "/") = Some failed
  ∧ listing (QString "b1") (QArray [QString "sub"; QString "/"]) = Some failed.
Proof.
  cbv zeta.
  assert (¬ turned_away Sample.w (QString "p1/") "bob") as Hbob.
  { apply (member_not_turned_away Sample.w (QString "p1/") "p1" "bob" Sample.p1);
      [reflexivity..|]. right. by apply list_elem_of_singleton. }
  pose proof (λ bid d : qvalue,
                listing_answer Sample.site Sample.w
                  {| query := {[ "pid" := QString "p1/"; "bid" := bid;
                                 "d" := d ]};
                     body := None; params := ∅; uid := "bob" |}
                  (QString "p1/") bid d 0 0 eq_refl eq_refl eq_refl Hbob)
    as Hanswer.
  split; [exact (Hanswer (QString "b1/") (QString "/"))|].
  split; [exact (Hanswer (QString "b2") (QString "/"))|].
  split; [exact (Hanswer (QString "b1/x") (QString "/"))|].
  split; [exact (Hanswer (QString "b9") (QString "/"))|].
  exact (Hanswer (QString "b1") (QArray [QString "sub"; QString "/"])).
Defined.

(** Unless the permission check turns the user away, the metadata route
    answers a request that has its three parameters in whichever order
    the two reads complete: InternalServerError with the fields of the
    error when [doc(bid)] throws, the bucket has no document or [f] is
    not a string, NotFound when the bucket is private, and for a public
    bucket the stat of the joined path, or InternalServerError with the
    fields of the error of the stat. *)
Theorem metadata_answer_in_full
    (site : string) (w : world) (req : request) (pid bid f : qvalue)
    (i j : nat) :
  query req !! "pid" = Some pid → query req !! "bid" = Some bid →
  query req !! "f" = Some f →
  ¬ turned_away w pid (uid req) →
  sent (serve w (get_metadata site req) [i; j])
  = Some (stat_answer site w bid f).
Proof.
  intros Hpid Hbid Hf Hallowed.
  by destruct (get_metadata_answer site w req pid bid f i j Hpid Hbid Hf)
    as [H|[_ H]].
Qed.

Lemma metadata_answer_in_full_witness :
  let metadata (bid f : qvalue) :=
    sent (serve Sample.w
            (get_metadata Sample.site
               {| query := {[ "pid" := QString "p1"; "bid" := bid; "f" := f ]};
                  body := None; params := ∅; uid := "alice" |})
            Sample.bucket_first) in
  metadata (QString "b1/") (QString "a.txt") = Some (OK, Stat IsFile)
  ∧ metadata (QString "b1") (QString "a.txt/")
    = Some (InternalServerError,
            ErrorFields (ENOTDIR "stat" "/srv/buckets/b1/a.txt/"))
  ∧ metadata (QString "b1/x") (QString "a.txt")
    = Some (InternalServerError,
            ErrorFields
              (InvalidArgument "documentPath must point to a document"))
  ∧ metadata (QString "ghost") (QString "x")
    = Some (InternalServerError,
            ErrorFields
              (TypeError "Cannot read properties of undefined: isPublic")).
Proof.
  cbv zeta.
  assert (¬ turned_away Sample.w (QString "p1") "alice") as Halice.
  { apply (member_of_project Sample.w "p1" "alice" Sample.p1);
      [reflexivity|]. by left. }
  pose proof (λ bid f : qvalue,
                metadata_answer_in_full Sample.site Sample.w
                  {| query := {[ "pid" := QString "p1"; "bid" := bid;
                                 "f" := f ]};
                     body := None; params := ∅; uid := "alice" |}
                  (QString "p1") bid f 1 0 eq_refl eq_refl eq_refl Halice)
    as Hanswer.
  split; [exact (Hanswer (QString "b1/") (QString "a.txt"))|].
  split; [exact (Hanswer (QString "b1") (QString "a.txt/"))|].
  split; [exact (Hanswer (QString "b1/x") (QString "a.txt"))|].
  exact (Hanswer (QString "ghost") (QString "x")).
Defined.

(** For a user the permission check turns away and a [bid] that names a
    document, the order in which the two reads complete decides the
    answer of both routes: Forbidden when the project read completes
    first, and what the owner would be answered when the bucket read
    completes first. *)
Theorem outsider_answer_by_order
    (site : string) (w : world) (req : request) (pid bid : qvalue)
    (key : string) (j : nat) :
  query req !! "pid" = Some pid → query req !! "bid" = Some bid →
  document_ref (Some bid) = inr key → turned_away w pid (uid req) →
  (∀ d, query req !! "d" = Some d →
     sent (serve w (get_root site req) [0; j]) = Some (forbidden pid)
     ∧ ∀ i, sent (serve w (get_root site req) [S i; j])
            = Some (root_answer site w bid d))
  ∧ (∀ f, query req !! "f" = Some f →
     sent (serve w (get_metadata site req) [0; j]) = Some (forbidden pid)
     ∧ ∀ i, sent (serve w (get_metadata site req) [S i; j])
            = Some (stat_answer site w bid f)).
Proof.
  intros Hpid Hbid Hkey Hdenied. split.
  - intros d Hd.
    destruct (get_root_guarded site req pid bid d Hpid Hbid Hd)
      as (after & handler & -> & Htail & _).
    apply (guarded_order w pid (uid req) bid key); [done..|].
    intros st Hsent Henv. by apply Htail.
  - intros f Hf.
    destruct (get_metadata_guarded site req pid bid f Hpid Hbid Hf)
      as (after & handler & -> & Htail & _).
    apply (guarded_order w pid (uid req) bid key); [done..|].
    intros st Hsent Henv. by apply Htail.
Qed.

Lemma outsider_answer_by_order_witness :
  let req := Sample.ask "mallory" [("pid", "p1/"); ("bid", "b1"); ("d", "sub");
                                   ("f", "a.txt")] in
  (∀ d, query req !! "d" = Some d →
     sent (serve Sample.w (get_root Sample.site req) [0; 0])
     = Some (Forbidden, Message "Accessing to project [p1/] does not allow")
     ∧ ∀ i, sent (serve Sample.w (get_root Sample.site req) [S i; 0])
            = Some (root_answer Sample.site Sample.w (QString "b1") d))
  ∧ (∀ f, query req !! "f" = Some f →
     sent (serve Sample.w (get_metadata Sample.site req) [0; 0])
     = Some (Forbidden, Message "Accessing to project [p1/] does not allow")
     ∧ ∀ i, sent (serve Sample.w (get_metadata Sample.site req) [S i; 0])
            = Some (stat_answer Sample.site Sample.w (QString "b1") f)).
Proof.
  cbv zeta.
  apply (outsider_answer_by_order Sample.site Sample.w
           (Sample.ask "mallory" [("pid", "p1/"); ("bid", "b1"); ("d", "sub");
                                  ("f", "a.txt")])
           (QString "p1/") (QString "b1") "b1" 0);
    try reflexivity.
  exists "p1". split; [reflexivity|].
  exists Sample.p1. repeat split; [discriminate|].
  intros Hin%list_elem_of_singleton. discriminate.
Defined.







(** A request that lacks a parameter is not answered OK. *)
Lemma get_root_incomplete site w req sched :
  allNotUndefined [query req !! "pid"; query req !! "bid"; query req !! "d"]
  = false →
  let st := serve w (get_root site req) sched in
  sent st = Some (NotFound, Message "Require: pid, bid, d")
  ∧ effects st = [EvSend NotFound (Message "Require: pid, bid, d")]
  ∧ settled st = [(0, Fulfilled JUndefined)].
Proof.
  intros Hmissing. cbv zeta. unfold serve, get_root. rewrite Hmissing.
  cbn. by rewrite drain_idle.
Qed.

Lemma get_metadata_incomplete site w req sched :
  allNotUndefined [query req !! "pid"; query req !! "bid"; query req !! "f"]
  = false →
  sent (serve w (get_metadata site req) sched)
  = Some (NotFound, Message "Not Found").
Proof.
  intros Hmissing. unfold serve, get_metadata. rewrite Hmissing.
  cbn. by rewrite drain_idle.
Qed.

Lemma root_answer_ok site w bid d payload :
  root_answer site w bid d = (OK, payload) →
  ∃ key b, document_ref (Some bid) = inr key
           ∧ bucketDocs w !! key = Some b ∧ isPublic b = true.
Proof.
  unfold root_answer. intros Hanswer.
  destruct (document_ref (Some bid)) as [e|key]; [done|].
  destruct (bucketDocs w !! key) as [b|] eqn:Hb; [|done].
  destruct (isPublic b) eqn:Hpublic; [|done].
  by exists key, b.
Qed.

Lemma stat_answer_ok site w bid f payload :
  stat_answer site w bid f = (OK, payload) →
  ∃ key b, document_ref (Some bid) = inr key
           ∧ bucketDocs w !! key = Some b ∧ isPublic b = true.
Proof.
  unfold stat_answer. intros Hanswer.
  destruct (document_ref (Some bid)) as [e|key]; [done|].
  destruct (bucketDocs w !! key) as [b|] eqn:Hb; [|done].
  destruct (isPublic b) eqn:Hpublic; [|done].
  by exists key, b.
Qed.

Lemma listing_ok_public site w req payload i j :
  sent (serve w (get_root site req) [i; j]) = Some (OK, payload) →
  ∃ bid key b, query req !! "bid" = Some bid
               ∧ document_ref (Some bid) = inr key
               ∧ bucketDocs w !! key = Some b ∧ isPublic b = true.
Proof.
  intros Hok.
  destruct (allNotUndefined [query req !! "pid"; query req !! "bid";
                             query req !! "d"]) eqn:Hall.
  2: { destruct (get_root_incomplete site w req [i; j] Hall) as (H & _).
       by rewrite H in Hok. }
  destruct (query req !! "pid") as [pid|] eqn:Hpid; [|done].
  destruct (query req !! "bid") as [bid|] eqn:Hbid; [|done].
  destruct (query req !! "d") as [d|] eqn:Hd; [|done].
  destruct (get_root_answer site w req pid bid d i j Hpid Hbid Hd)
    as [H|[H _]]; rewrite H in Hok; [|done].
  injection Hok as Hanswer.
  destruct (root_answer_ok site w bid d payload Hanswer) as (key & b & ?).
  by exists bid, key, b.
Qed.

Lemma metadata_ok_public site w req payload i j :
  sent (serve w (get_metadata site req) [i; j]) = Some (OK, payload) →
  ∃ bid key b, query req !! "bid" = Some bid
               ∧ document_ref (Some bid) = inr key
               ∧ bucketDocs w !! key = Some b ∧ isPublic b = true.
Proof.
  intros Hok.
  destruct (allNotUndefined [query req !! "pid"; query req !! "bid";
                             query req !! "f"]) eqn:Hall.
  2: { by rewrite (get_metadata_incomplete site w req [i; j] Hall) in Hok. }
  destruct (query req !! "pid") as [pid|] eqn:Hpid; [|done].
  destruct (query req !! "bid") as [bid|] eqn:Hbid; [|done].
  destruct (query req !! "f") as [f|] eqn:Hf; [|done].
  destruct (get_metadata_answer site w req pid bid f i j Hpid Hbid Hf)
    as [H|[H _]]; rewrite H in Hok; [|done].
  injection Hok as Hanswer.
  destruct (stat_answer_ok site w bid f payload Hanswer) as (key & b & ?).
  by exists bid, key, b.
Qed.

(** The listing and the metadata routes answer OK only when [bid] names
    the document of a bucket that exists and is public, whoever asks and
    in whichever order the reads complete.  The bucket is the one [doc]
    makes of [bid]: [b1/] names the bucket [b1]. *)
Theorem ok_only_for_public_bucket
    (site : string) (w : world) (req : request) (payload : payload)
    (i j : nat) :
  sent (serve w (get_root site req) [i; j]) = Some (OK, payload)
  ∨ sent (serve w (get_metadata site req) [i; j]) = Some (OK, payload) →
  ∃ bid key b, query req !! "bid" = Some bid
               ∧ document_ref (Some bid) = inr key
               ∧ bucketDocs w !! key = Some b ∧ isPublic b = true.
Proof.
  intros [Hok|Hok];
    [by apply (listing_ok_public site w req payload i j)
    |by apply (metadata_ok_public site w req payload i j)].
Qed.

Lemma ok_only_for_public_bucket_witness :
  ∃ bid key b,
    query (Sample.ask "mallory" [("pid", "p1"); ("bid", "b1/"); ("f", "a.txt")])
      !! "bid" = Some bid
    ∧ document_ref (Some bid) = inr key
    ∧ bucketDocs Sample.w !! key = Some b ∧ isPublic b = true.
Proof.
  apply (ok_only_for_public_bucket Sample.site Sample.w
           (Sample.ask "mallory" [("pid", "p1"); ("bid", "b1/"); ("f", "a.txt")])
           (Stat IsFile) 1 0).
  right. reflexivity.
Defined.



(** ** The permission check without a project *)

(** When [pid] names no project, the permission check answers nothing
    and settles to neither [true] nor [false]: its promise is rejected.
    When [doc(pid)] throws ([pid] is not a non-empty string, holds [//]
    or does not point to a document) the promise is rejected with that
    error and no read is issued; when [pid] names a document that does
    not exist, that document is read and the promise is rejected with the
    TypeError of reading [ownerId] of undefined. *)
Theorem checkProjectPerm_without_project
    (w : world) (pid : option qvalue) (user : string) (i : nat) :
  (∀ key, document_ref pid = inr key → projects w !! key = None) →
  let st := serve w (checkProjectPerm pid user) [i] in
  sent st = None
  ∧ match document_ref pid with
    | inl error =>
        settled st = [(0, Rejected error)] ∧ effects st = []
    | inr key =>
        settled st
        = [(0, Rejected
                 (TypeError "Cannot read properties of undefined: ownerId"))]
        ∧ effects st = [EvGet "projects" key]
    end.
Proof.
  intros Hnone. cbv zeta. unfold serve, checkProjectPerm, firestore_doc.
  destruct (document_ref pid) as [error|key]; [done|].
  cbn. resume_next. by rewrite (Hnone key eq_refl).
Qed.

Lemma checkProjectPerm_without_project_witness :
  let check (pid : option qvalue) :=
    serve Sample.w (checkProjectPerm pid "alice") [0] in
  (sent (check (Some (QString "p9"))) = None
   ∧ settled (check (Some (QString "p9")))
     = [(0, Rejected
              (TypeError "Cannot read properties of undefined: ownerId"))]
   ∧ effects (check (Some (QString "p9"))) = [EvGet "projects" "p9"])
  ∧ (sent (check (Some (QString "p1/x"))) = None
     ∧ settled (check (Some (QString "p1/x")))
       = [(0, Rejected
                (InvalidArgument "documentPath must point to a document"))]
     ∧ effects (check (Some (QString "p1/x"))) = []).
Proof.
  cbv zeta. split.
  - apply (checkProjectPerm_without_project Sample.w (Some (QString "p9"))
             "alice" 0).
    intros key [= <-]. reflexivity.
  - apply (checkProjectPerm_without_project Sample.w (Some (QString "p1/x"))
             "alice" 0).
    intros key [=].
Defined.

(** ** The upload route and the routes without a body *)

(** The upload route answers every request at once, OK with
    [req.files] when [pid], [bid] and [d] are present and NotFound
    otherwise; it reads no store and does not call the permission check,
    so the answer does not depend on the user, the project or the
    bucket. *)
Theorem upload_answer (w : world) (req : request) (sched : list nat) :
  let st := serve w (post_upload req) sched in
  let r := if allNotUndefined [query req !! "pid"; query req !! "bid";
                               query req !! "d"]
           then (OK, Files) else (NotFound, Message "Not Found") in
  sent st = Some r
  ∧ effects st = [EvSend r.1 r.2]
  ∧ settled st = [(0, Fulfilled JUndefined)].
Proof.
  cbv zeta. unfold serve, post_upload.
  destruct (allNotUndefined _); cbn; by rewrite drain_idle.
Qed.

(** A listing request that lacks [pid], [bid] or [d] is answered
    NotFound with the message that lists the three parameters, before
    the permission check is called or anything is read; [d] has no
    default. *)
Theorem listing_requires_parameters
    (site : string) (w : world) (req : request) (sched : list nat) :
  query req !! "pid" = None ∨ query req !! "bid" = None
  ∨ query req !! "d" = None →
  let st := serve w (get_root site req) sched in
  sent st = Some (NotFound, Message "Require: pid, bid, d")
  ∧ effects st = [EvSend NotFound (Message "Require: pid, bid, d")]
  ∧ settled st = [(0, Fulfilled JUndefined)].
Proof.
  intros Hmissing. apply get_root_incomplete. unfold allNotUndefined.
  destruct Hmissing as [->|[->| ->]]; simpl; by rewrite ?andb_false_r.
Qed.

Lemma listing_requires_parameters_witness :
  let st := serve Sample.w
              (get_root Sample.site
                 (Sample.ask "alice" [("pid", "p1"); ("bid", "b1")]))
              [0; 0] in
  sent st = Some (NotFound, Message "Require: pid, bid, d")
  ∧ effects st = [EvSend NotFound (Message "Require: pid, bid, d")]
  ∧ settled st = [(0, Fulfilled JUndefined)].
Proof.
  apply (listing_requires_parameters Sample.site Sample.w
           (Sample.ask "alice" [("pid", "p1"); ("bid", "b1")]) [0; 0]).
  right. right. reflexivity.
Defined.

(** The handlers from PUT /mkdir on answer no request: whatever the
    request, the stores and the schedule, nothing is sent, nothing is
    read or written, and nothing is left pending.  The promise of the
    handler is fulfilled, or rejected with a TypeError when a route that
    destructures [req.body] is called without a body. *)
Theorem bodiless_routes_answer_nothing
    (w : world) (req : request) (sched : list nat) :
  Forall (λ route : request → prog,
            let st := serve w (route req) sched in
            sent st = None ∧ effects st = [] ∧ waiting st = [] ∧ env st = w
            ∧ settled st
              = [(0, match body req with
                     | Some _ => Fulfilled JUndefined
                     | None => Rejected (TypeError "Cannot destructure")
                     end)])
         body_routes
  ∧ Forall (λ route : request → prog,
              let st := serve w (route req) sched in
              sent st = None ∧ effects st = [] ∧ waiting st = [] ∧ env st = w
              ∧ settled st = [(0, Fulfilled JUndefined)])
           query_routes.
Proof.
  unfold body_routes, query_routes, serve.
  split; repeat constructor;
    unfold put_mkdir, put_mv, put_cp, put_rm, put_zip, put_unzip,
      put_download_job, get_download, get_jobs;
    try (destruct (body req)); cbn; by rewrite drain_idle.
Qed.

(** ** The joined path has no [..] left *)

Lemma normalize_step_no_dotdot kept seg :
  Forall (λ s, s ≠ "..") kept →
  Forall (λ s, s ≠ "..") (Path.normalize_step false kept seg).
Proof.
  intros Hkept. unfold Path.normalize_step.
  destruct ((seg =? "") || (seg =? ".")); [done|].
  destruct (String.eqb_spec seg "..") as [->|Hseg].
  - destruct kept as [|last before]; [done|].
    inversion Hkept; subst. by destruct (last =? "..").
  - by constructor.
Qed.

Lemma fold_normalize_no_dotdot segs kept :
  Forall (λ s, s ≠ "..") kept →
  Forall (λ s, s ≠ "..") (fold_left (Path.normalize_step false) segs kept).
Proof.
  revert kept. induction segs as [|seg segs IH]; intros kept Hkept; [done|].
  simpl. by apply IH, normalize_step_no_dotdot.
Qed.

(** When [Config.bucketSite] is absolute, the path handed to the
    disk is absolute and none of its names is [..], [.] or empty: every
    [..] of the requested path is resolved by the join, against the
    directories of the bucket site when the request climbs that far. *)
Theorem currentDir_has_no_dotdot (site bid d : string) :
  Path.isAbsolute site = true →
  Path.isAbsolute (currentDir site bid d) = true
  ∧ Forall (λ name, name ≠ ".." ∧ name ≠ "." ∧ name ≠ "")
           (Path.components (currentDir site bid d)).
Proof.
  intros Habs.
  assert (site ≠ "") as Hsite by (by destruct site).
  unfold currentDir.
  split; [by rewrite PathFacts.isAbsolute_join|].
  unfold Path.join.
  rewrite filter_cons_True
    by (apply Is_true_true, negb_true_iff; by apply String.eqb_neq).
  set (parts := site :: filter _ _).
  assert (Path.isAbsolute (Path.unsplit parts) = true) as Hparts
    by (subst parts; by rewrite PathFacts.isAbsolute_unsplit).
  rewrite PathFacts.components_normalize, Hparts. simpl.
  pose proof (PathFacts.normalizeString_proper false (Path.unsplit parts))
    as Hproper.
  assert (Forall (λ s, s ≠ "..")
            (Path.normalizeString false (Path.split (Path.unsplit parts))))
    as Hdots.
  { unfold Path.normalizeString. apply Forall_rev.
    apply fold_normalize_no_dotdot. constructor. }
  rewrite Forall_forall in Hproper, Hdots. apply Forall_forall.
  intros name Hname. destruct (Hproper name Hname) as (_ & Hne & Hnd).
  repeat split; [by apply Hdots|done|done].
Qed.

Lemma currentDir_has_no_dotdot_witness :
  Path.isAbsolute (currentDir "/srv/buckets" "b1" "../../../etc/passwd") = true
  ∧ Forall (λ name, name ≠ ".." ∧ name ≠ "." ∧ name ≠ "")
           (Path.components
              (currentDir "/srv/buckets" "b1" "../../../etc/passwd")).
Proof.
  apply (currentDir_has_no_dotdot "/srv/buckets" "b1" "../../../etc/passwd").
  reflexivity.
Defined.

(** ** The stored name of an upload, continued *)

Module ScanFacts.
Import Path Scan.

Lemma scanned_found pre post st st' :
  scanned pre post st → startDot st' = startDot st → end_ st' = end_ st →
  found (pre ++ post) st'.
Proof.
  intros [(_ & Hdot & _)|(mid & trail & -> & Hmid & Htrail & Hend & _ & _ & Hcase)]
    Hd He.
  - left. congruence.
  - destruct Hcase as [[Hdot _]|(a & b & -> & Hb & Hdot)]; [left; congruence|].
    right. exists (pre ++ a), b, trail. repeat split.
    + by rewrite <- !app_assoc.
    + rewrite Hd, Hdot, length_app. done.
    + rewrite He, Hend, !length_app. simpl. f_equal. lia.
    + apply forallb_forall. intros c Hc. unfold plain_char.
      apply Forall_app in Hmid as [_ Hmid]. inversion Hmid as [|? ? _ Hbs]; subst.
      rewrite Forall_forall in Hbs, Hb.
      apply list_elem_of_In in Hc.
      rewrite (Hbs c Hc). unfold is_dot in Hb. by rewrite (Hb c Hc).
    + done.
Qed.

Lemma ext_loop_found pre post st :
  scanned pre post st →
  found (pre ++ post) (ext_loop (rev pre) (Z.of_nat (length pre) - 1) st).
Proof.
  revert post st. induction pre as [|c pre IH] using rev_ind; intros post st Hinv.
  - by apply (scanned_found [] post st st).
  - pose proof Hinv as Hinv0.
    rewrite rev_unit, length_app. simpl.
    replace (Z.of_nat (length pre + 1) - 1)%Z with (Z.of_nat (length pre)) by lia.
    unfold ext_step.
    destruct (is_sep c) eqn:Hsep.
    + destruct Hinv as [(He & Hd & Hm & Hpost)|(mid & trail & Hpost & Hmid & Htrail & He & Hne & Hm & Hcase)].
      * rewrite Hm. simpl. rewrite <- app_assoc. simpl.
        apply IH. left. repeat split; try done. by constructor.
      * rewrite Hm. simpl.
        by apply (scanned_found (pre ++ [c]) post st).
    + rewrite <- app_assoc. simpl.
      destruct Hinv as [(He & Hd & Hm & Hpost)|(mid & trail & Hpost & Hmid & Htrail & He & Hne & Hm & Hcase)].
      * rewrite He. simpl. rewrite Hd. simpl.
        destruct (Ascii.eqb c ".") eqn:Hc; simpl; apply IH;
          right; exists [c], post.
        -- repeat split; try done; [by repeat constructor|simpl; f_equal; lia|].
           right. exists [], []. apply Ascii.eqb_eq in Hc as ->.
           repeat split; [done|simpl; f_equal; lia].
        -- repeat split; try done; [by repeat constructor|simpl; f_equal; lia|].
           left. split; [done|]. by repeat constructor.
      * rewrite length_app in He. simpl in He.
        assert ((end_ st =? -1)%Z = false) as Hnz by (apply Z.eqb_neq; lia).
        rewrite Hnz. subst post.
        assert (Forall (λ c0, is_sep c0 = false) (c :: mid)) by (by constructor).
        assert (end_ st = Z.of_nat (length pre + length (c :: mid))) as He'
          by (rewrite He; simpl; lia).
        assert (c :: mid ≠ []) by done.
        destruct (Ascii.eqb c ".") eqn:Hc.
        -- destruct Hcase as [[Hd Hnd]|(a & b & -> & Hb & Hd)].
           ++ rewrite Hd. simpl. apply IH. right. exists (c :: mid), trail.
              repeat split; try done.
              right. exists [], mid. apply Ascii.eqb_eq in Hc as ->.
              repeat split; [done|simpl; f_equal; lia].
           ++ rewrite length_app in Hd. simpl in Hd.
              assert ((startDot st =? -1)%Z = false) as Hdz by (apply Z.eqb_neq; lia).
              rewrite Hdz.
              assert (∀ v, scanned pre ((c :: a ++ "."%char :: b) ++ trail)
                             (with_preDot st v)) as Hkeep.
              { intros v. right. exists (c :: a ++ "."%char :: b), trail.
                repeat split; try done.
                right. exists (c :: a), b. repeat split; [done|].
                simpl. rewrite Hd. f_equal. lia. }
              destruct (negb (preDotState st =? 1)%Z); simpl; apply IH.
              ** apply (Hkeep 1%Z).
              ** specialize (Hkeep (preDotState st)). by destruct st.
        -- destruct Hcase as [[Hd Hnd]|(a & b & -> & Hb & Hd)].
           ++ rewrite Hd. simpl. apply IH. right. exists (c :: mid), trail.
              repeat split; try done.
              left. split; [done|]. by constructor.
           ++ rewrite length_app in Hd. simpl in Hd.
              assert ((startDot st =? -1)%Z = false) as Hdz by (apply Z.eqb_neq; lia).
              rewrite Hdz. simpl. apply IH.
              right. exists (c :: a ++ "."%char :: b), trail.
              repeat split; try done.
              right. exists (c :: a), b. repeat split; [done|].
              simpl. rewrite Hd. f_equal. lia.
Qed.

Lemma string_of_list_app a b :
  string_of_list_ascii (a ++ b)
  = string_of_list_ascii a +:+ string_of_list_ascii b.
Proof. induction a as [|c a IH]; [done|]. simpl. by rewrite IH. Qed.

Lemma length_string_of_list a :
  String.length (string_of_list_ascii a) = length a.
Proof. induction a as [|c a IH]; [done|]. simpl. by rewrite IH. Qed.

Lemma substring_prefix m t : substring 0 (String.length m) (m +:+ t) = m.
Proof.
  induction m as [|c m IH]; [by destruct t|].
  change (String c m +:+ t) with (String c (m +:+ t)). simpl. by rewrite IH.
Qed.

Lemma substring_middle a m t :
  substring (String.length a) (String.length m) (a +:+ m +:+ t) = m.
Proof.
  induction a as [|c a IH]; [exact (substring_prefix m t)|].
  change (String c a +:+ m +:+ t) with (String c (a +:+ m +:+ t)). exact IH.
Qed.

(** The extension is empty, or it is the dot and the plain characters
    that end the last component of the path. *)
Lemma extname_shape p :
  extname p = ""
  ∨ ∃ front ext trail,
      p = front +:+ "." +:+ ext +:+ trail
      ∧ plain ext = true ∧ all_sep trail = true
      ∧ extname p = "." +:+ ext.
Proof.
  assert (scanned (list_ascii_of_string p) [] ext_scan0) as Hstart
    by (left; by repeat split).
  apply ext_loop_found in Hstart as Hfound.
  rewrite app_nil_r in Hfound.
  unfold extname.
  assert (Z.of_nat (String.length p) = Z.of_nat (length (list_ascii_of_string p)))
    as -> by (f_equal; rewrite <- (string_of_list_ascii_of_string p) at 1;
              apply length_string_of_list).
  destruct Hfound as [Hdot|(front & b & trail & Hp & Hdot & Hend & Hb & Htrail)].
  - left. by rewrite Hdot.
  - destruct (_ || _ || _ || _) eqn:Hcond; [by left|].
    right.
    exists (string_of_list_ascii front), (string_of_list_ascii b),
           (string_of_list_ascii trail).
    assert (p = string_of_list_ascii front +:+ "." +:+ string_of_list_ascii b
                +:+ string_of_list_ascii trail) as Hp'.
    { rewrite <- (string_of_list_ascii_of_string p), Hp.
      rewrite string_of_list_app. simpl. by rewrite string_of_list_app. }
    split; [exact Hp'|]. split.
    { unfold plain. by rewrite list_ascii_of_string_of_list_ascii. }
    split.
    { unfold all_sep. rewrite list_ascii_of_string_of_list_ascii.
      apply forallb_forall. intros c Hc%list_elem_of_In.
      by rewrite Forall_forall in Htrail; apply Htrail. }
    rewrite Hdot, Hend, Nat2Z.id.
    replace (Z.to_nat _) with (S (length b)) by lia.
    rewrite Hp' at 1.
    rewrite <- (length_string_of_list front), <- (length_string_of_list b).
    exact (substring_middle (string_of_list_ascii front)
             ("." +:+ string_of_list_ascii b) (string_of_list_ascii trail)).
Qed.

Lemma no_sep_append a b : no_sep (a +:+ b) = no_sep a && no_sep b.
Proof.
  induction a as [|c a IH]; [done|].
  change (String c a +:+ b) with (String c (a +:+ b)). simpl.
  by rewrite IH, andb_assoc.
Qed.

Lemma plain_no_sep s : plain s = true → no_sep s = true.
Proof.
  unfold plain. induction s as [|c s IH]; [done|]. simpl.
  intros [Hc Hs]%andb_prop. rewrite (IH Hs).
  unfold plain_char in Hc. apply andb_prop in Hc as [-> _]. done.
Qed.

Lemma no_sep_digits d : no_sep (NilEmpty.string_of_uint d) = true.
Proof. induction d; simpl; done. Qed.

Lemma extname_no_sep p : no_sep (extname p) = true.
Proof.
  destruct (extname_shape p) as [->|(front & ext & trail & _ & Hext & _ & ->)];
    [done|].
  change ("." +:+ ext) with (String "." ext). simpl. by apply plain_no_sep.
Qed.

Lemma append_cancel s a b : s +:+ a = s +:+ b → a = b.
Proof.
  induction s as [|c s IH]; [done|].
  change (String c s +:+ a) with (String c (s +:+ a)).
  change (String c s +:+ b) with (String c (s +:+ b)).
  intros [= H]. by apply IH.
Qed.

Lemma number_text_inj n m : number_text n = number_text m → n = m.
Proof.
  unfold number_text. intros H.
  apply (f_equal NilEmpty.uint_of_string) in H.
  rewrite !NilEmpty.usu in H. injection H as H.
  apply (f_equal N.of_uint) in H. by rewrite !Unsigned.of_to in H.
Qed.

End ScanFacts.

(** The stored name is the time stamp alone, or a dot, the plain
    characters that follow the last dot of the last component of the
    original name, and the time stamp: nothing before that dot, and so
    nothing of the base name or of a directory in the original name, gets
    into the stored name. *)
Theorem filename_shape (original : string) (now : N) :
  filename original now = number_text now
  ∨ ∃ front ext trail,
      original = front +:+ "." +:+ ext +:+ trail
      ∧ Path.plain ext = true ∧ Scan.all_sep trail = true
      ∧ filename original now = "." +:+ ext +:+ number_text now.
Proof.
  unfold filename.
  destruct (ScanFacts.extname_shape original)
    as [->|(front & ext & trail & Horiginal & Hext & Htrail & ->)];
    [by left|].
  right. by exists front, ext, trail.
Qed.

(** Whatever the original name, the stored name holds no path
    separator: the file is written in the upload directory itself. *)
Theorem filename_has_no_separator (original : string) (now : N) :
  Path.no_sep (filename original now) = true.
Proof.
  unfold filename, number_text.
  by rewrite ScanFacts.no_sep_append, ScanFacts.extname_no_sep,
    ScanFacts.no_sep_digits.
Qed.

(** Two uploads whose original names have the same extension get
    different stored names when their time stamps differ. *)
Theorem filename_distinct_times (one other : string) (now later : N) :
  Path.extname one = Path.extname other → now ≠ later →
  (filename one now =? filename other later) = false.
Proof.
  intros Hext Htime. apply String.eqb_neq. intros Hsame.
  unfold filename in Hsame. rewrite Hext in Hsame.
  by apply ScanFacts.append_cancel, ScanFacts.number_text_inj in Hsame.
Qed.

Lemma filename_distinct_times_witness :
  (filename "report.pdf" 1700000000000 =? filename "invoice.pdf" 1700000000001)
  = false.
Proof.
  apply (filename_distinct_times "report.pdf" "invoice.pdf"
           1700000000000 1700000000001); [reflexivity|discriminate].
Defined.
